(** * Google Sheets data replicator: a shallow embedding and its properties

    The development follows [google_sheets_data_replicator.py].  The
    replicator object ([self]) becomes a record, the remote spreadsheet
    service becomes a state machine answering [request.execute()], and the
    methods become computations in a small state-and-exception monad.  Every
    call to [request.execute()] and to [time.sleep] is recorded in a log, so
    that statements about "which remote calls happen, and in which order" are
    statements about that log. *)

From Stdlib Require Import ZArith Lia.
From stdpp Require Import base tactics option list numbers strings pretty.

Local Open Scope string_scope.
Local Open Scope list_scope.
Local Open Scope nat_scope.

(** ** Values *)

(** A cell of a sheet as the JSON decoder hands it to Python: a string, an
    integer or a boolean (cells holding other numbers are left out).  The
    program never inspects the cells it copies; of the configuration cells
    it only tests equality with string literals, formats them into messages
    and passes them on as sheet identifiers and ranges. *)
Inductive cell :=
| CStr (s : string)
| CNum (z : Z)
| CBool (b : bool).

#[global] Instance cell_eq_dec : EqDecision cell.
Proof. solve_decision. Defined.

(** Python's [str(x)], as used by f-string interpolation. *)
Definition str (c : cell) : string :=
  match c with
  | CStr s => s
  | CNum z => pretty z
  | CBool true => "True"
  | CBool false => "False"
  end.

(** The dictionary returned by [values().get(...).execute()] and accepted as
    the body of [values().update(...)]: each of the three keys may be absent. *)
Record ValueRange := mkValueRange {
  vr_range : option cell;
  vr_majorDimension : option string;
  vr_values : option (list (list cell))
}.

(** [response['range'] = r] *)
Definition set_range (response : ValueRange) (r : cell) : ValueRange :=
  {| vr_range := Some r;
     vr_majorDimension := vr_majorDimension response;
     vr_values := vr_values response |}.

(** The two request builders of the API client the program uses. *)
Inductive Request :=
| ValuesGet (spreadsheetId range : cell) (majorDimension : string)
            (valueRenderOption : option string)
| ValuesUpdate (spreadsheetId range : cell) (valueInputOption : string)
               (body : ValueRange).

(** [googleapiclient.errors.HttpError]: [e.resp['status']] and [str(e)]. *)
Record HttpErr := mkHttpErr { status : string; text : string }.

(** What one [request.execute()] does: return a dictionary, raise
    [HttpError], or raise an exception of another class (a transport or
    authorisation error of the client library), given by the name of the
    class.  The acknowledgement of an update is discarded by every caller, so
    one response type serves both kinds of request. *)
Inductive Outcome :=
| Success (response : ValueRange)
| Failure (e : HttpErr)
| Dropped (name : string).

(** Python exceptions that can leave the program: those it raises itself,
    [RecursionError] from the interpreter, and whatever [request.execute()]
    raises. *)
Inductive exn :=
| HttpError (e : HttpErr)
| IndexError
| TypeError
| ValueError
| Exception (msg : string)
| RecursionError
| OtherError (name : string).

(** Result of running a piece of the program: a value or a raised
    exception. *)
Inductive Result (A : Type) :=
| Ok (a : A)
| Raise (e : exn).
Arguments Ok {A} a.
Arguments Raise {A} e.

(** ** List indexing as Python does it *)

(** [task[i]] where [i] is one of the column indices of [self]: these are
    [None] until the header gives them a value, and are never negative. *)
Definition getitem (task : list cell) (i : option nat) : Result cell :=
  match i with
  | None => Raise TypeError
  | Some n =>
      match task !! n with
      | Some c => Ok c
      | None => Raise IndexError
      end
  end.

(** [range(start, stop, step)] for a positive step. *)
Definition range (start stop step : nat) : list nat :=
  (λ k, start + k * step) <$> seq 0 ((stop - start + (step - 1)) / step).

(** [a, b = l]: unpacking into exactly two names. *)
Definition unpack2 (l : list cell) : Result (cell * cell) :=
  match l with
  | [a; b] => Ok (a, b)
  | _ => Raise ValueError
  end.

(** ** Range Pair Extractor *)

Record RangePair := mkRangePair {
  source_range : cell;
  destination_range : cell
}.

(** The body of [for i in range(5, len(task), 2)], with [pairs] the list
    built so far. *)
Fixpoint pairs_loop (task : list cell) (idxs : list nat)
    (pairs : list RangePair) : Result (list RangePair) :=
  match idxs with
  | [] => Ok pairs
  | i :: idxs' =>
      match unpack2 (take 2 (drop i task)) with
      | Ok (s, d) => pairs_loop task idxs' (pairs ++ [mkRangePair s d])
      | Raise e => Raise e
      end
  end.

Definition get_source_destination_range_pairs (task : list cell)
    : Result (list RangePair) :=
  pairs_loop task (range 5 (length task) 2) [].

(** ** The remote service and the replicator object *)

(** The spreadsheet service seen through the client library: a state machine
    that answers each [request.execute()], and on which time passes during
    [time.sleep]. *)
Class Remote := {
  World : Type;
  request_execute : Request → World → Outcome * World;
  time_sleep : Z → World → World
}.

(** What the log records. *)
Inductive Event :=
| Executed (request : Request) (outcome : Outcome)
| Slept (seconds : Z).

(** The fields of [GoogleSheetsDataReplicator] that the core methods use.
    Credentials and the service handle belong to the client library and are
    represented by the [Remote] instance. *)
Record Replicator := mkReplicator {
  source_sheet_index : option nat;
  destination_sheet_index : option nat;
  task_id_index : option nat;
  enable_index : option nat;
  tasks : list (list cell);
  configuration_range : string;
  configuration_sheet_id : string;
  errors : list (list cell)
}.

(** [__init__] *)
Definition init (config_sheet_id : string) : Replicator :=
  {| source_sheet_index := None;
     destination_sheet_index := None;
     task_id_index := None;
     enable_index := None;
     tasks := [];
     configuration_range := "Configuration!A1:Z50";
     configuration_sheet_id := config_sheet_id;
     errors := [] |}.

Definition set_source_sheet_index (s : Replicator) (column : nat) : Replicator :=
  {| source_sheet_index := Some column;
     destination_sheet_index := destination_sheet_index s;
     task_id_index := task_id_index s;
     enable_index := enable_index s;
     tasks := tasks s;
     configuration_range := configuration_range s;
     configuration_sheet_id := configuration_sheet_id s;
     errors := errors s |}.

Definition set_destination_sheet_index (s : Replicator) (column : nat) : Replicator :=
  {| source_sheet_index := source_sheet_index s;
     destination_sheet_index := Some column;
     task_id_index := task_id_index s;
     enable_index := enable_index s;
     tasks := tasks s;
     configuration_range := configuration_range s;
     configuration_sheet_id := configuration_sheet_id s;
     errors := errors s |}.

Definition set_task_id_index (s : Replicator) (column : nat) : Replicator :=
  {| source_sheet_index := source_sheet_index s;
     destination_sheet_index := destination_sheet_index s;
     task_id_index := Some column;
     enable_index := enable_index s;
     tasks := tasks s;
     configuration_range := configuration_range s;
     configuration_sheet_id := configuration_sheet_id s;
     errors := errors s |}.

Definition set_enable_index (s : Replicator) (column : nat) : Replicator :=
  {| source_sheet_index := source_sheet_index s;
     destination_sheet_index := destination_sheet_index s;
     task_id_index := task_id_index s;
     enable_index := Some column;
     tasks := tasks s;
     configuration_range := configuration_range s;
     configuration_sheet_id := configuration_sheet_id s;
     errors := errors s |}.

Definition set_tasks (s : Replicator) (ts : list (list cell)) : Replicator :=
  {| source_sheet_index := source_sheet_index s;
     destination_sheet_index := destination_sheet_index s;
     task_id_index := task_id_index s;
     enable_index := enable_index s;
     tasks := ts;
     configuration_range := configuration_range s;
     configuration_sheet_id := configuration_sheet_id s;
     errors := errors s |}.

Definition set_errors (s : Replicator) (es : list (list cell)) : Replicator :=
  {| source_sheet_index := source_sheet_index s;
     destination_sheet_index := destination_sheet_index s;
     task_id_index := task_id_index s;
     enable_index := enable_index s;
     tasks := tasks s;
     configuration_range := configuration_range s;
     configuration_sheet_id := configuration_sheet_id s;
     errors := es |}.

(** The whole machine: the object, the service, and the log of remote calls
    and sleeps so far. *)
Record State `{Remote} := mkState {
  self : Replicator;
  world : World;
  log : list Event
}.
Arguments mkState {_} self world log.

Section Program.
Context `{Remote}.

(** ** The monad: state passing with exceptions *)

Definition M (A : Type) : Type := State → Result A * State.

Definition ret {A} (a : A) : M A := λ st, (Ok a, st).

Definition bind {A B} (m : M A) (f : A → M B) : M B := λ st,
  match m st with
  | (Ok a, st') => f a st'
  | (Raise e, st') => (Raise e, st')
  end.

Definition raise {A} (e : exn) : M A := λ st, (Raise e, st).

Definition lift {A} (r : Result A) : M A := λ st, (r, st).

(** Reading and updating fields of [self]. *)
Definition gets {A} (f : Replicator → A) : M A := λ st, (Ok (f (self st)), st).

Definition modify (f : Replicator → Replicator) : M unit := λ st,
  (Ok tt, mkState (f (self st)) (world st) (log st)).

Notation "x <- m ;; k" := (bind m (λ x, k))
  (at level 100, m at next level, right associativity).

(** [for x in l: body(x)] *)
Fixpoint for_each {A} (l : list A) (body : A → M unit) : M unit :=
  match l with
  | [] => ret tt
  | x :: l' => _ <- body x ;; for_each l' body
  end.

(** ** Quota-Aware Request Executor *)

(** The program retries by calling itself, from inside the handler of the
    exception, so every retry is one more nested call, and the interpreter
    allows only so many: [fuel] is the number of nested retries that the
    recursion limit still leaves room for where the executor is called (the
    limit is 1000 frames unless changed).  [execute_request 0] makes one
    attempt; when it is rate-limited it sleeps, and the retry that cannot be
    nested any more ends in [RecursionError], which nothing catches.  The
    model records no event for that last, failed call, and takes the same
    room at every place the executor is called from: the frame or two by
    which those places differ are not told apart. *)
Fixpoint execute_request (fuel : nat) (request : Request) : M ValueRange := λ st,
  let (outcome, w) := request_execute request (world st) in
  let st1 := mkState (self st) w (log st ++ [Executed request outcome]) in
  match outcome with
  | Success response => (Ok response, st1)
  | Failure e =>
      if decide (status e = "429") then
        let st2 := mkState (self st1) (time_sleep 100 (world st1))
                     (log st1 ++ [Slept 100]) in
        match fuel with
        | 0 => (Raise RecursionError, st2)
        | S fuel' => execute_request fuel' request st2
        end
      else (Raise (HttpError e), st1)
  | Dropped name => (Raise (OtherError name), st1)
  end.

Definition add_error (message : string) : M unit :=
  modify (λ s, set_errors s (errors s ++ [[CStr message]])).

Definition execute_request_or_log_error (fuel : nat) (request : Request)
    (error_message : string) : M (option ValueRange) := λ st,
  match execute_request fuel request st with
  | (Ok response, st') => (Ok (Some response), st')
  | (Raise (HttpError e), st') =>
      (_ <- add_error (error_message +:+ ": " +:+ text e) ;; ret None) st'
  | (Raise e, st') => (Raise e, st')
  end.

(** ** Config Loader *)

Definition enumerate {A} (l : list A) : list (nat * A) :=
  zip (seq 0 (length l)) l.

(** The body of the loop over [enumerate(response['values'][0])]. *)
Definition resolve_column (s : Replicator) (cv : nat * cell) : Replicator :=
  let '(column, value) := cv in
  let s := if decide (value = CStr "Source Sheet Id")
           then set_source_sheet_index s column else s in
  let s := if decide (value = CStr "Destination Sheet Id")
           then set_destination_sheet_index s column else s in
  let s := if decide (value = CStr "ID")
           then set_task_id_index s column else s in
  let s := if decide (value = CStr "Enable")
           then set_enable_index s column else s in
  s.

Definition resolve_header (header : list cell) (s : Replicator) : Replicator :=
  foldl resolve_column s (enumerate header).

(** The part of [fetch_config_data] that follows the fetch. *)
Definition load_config (response : ValueRange) : M unit :=
  match vr_values response with
  | None => raise (Exception "failed to fetch configuration data")
  | Some values =>
      match values with
      | [] => raise IndexError
      | header :: _ =>
          _ <- modify (resolve_header header) ;;
          modify (λ s, set_tasks s (drop 1 values))
      end
  end.

Definition fetch_config_data (fuel : nat) : M unit :=
  sheet_id <- gets configuration_sheet_id ;;
  rng <- gets configuration_range ;;
  let request := ValuesGet (CStr sheet_id) (CStr rng) "ROWS" None in
  response <- execute_request fuel request ;;
  load_config response.

(** ** Task Processor *)

(** The body of the inner loop of [process_tasks]. *)
Definition process_pair (fuel : nat) (task : list cell)
    (source_destination_pair : RangePair) : M unit :=
  src_index <- gets source_sheet_index ;;
  src <- lift (getitem task src_index) ;;
  let read_request :=
    ValuesGet src (source_range source_destination_pair) "ROWS"
      (Some "UNFORMATTED_VALUE") in
  id_index <- gets task_id_index ;;
  id <- lift (getitem task id_index) ;;
  response <- execute_request_or_log_error fuel read_request
                ("Failed to fetch data for task " +:+ str id) ;;
  match response with
  | None => ret tt
  | Some response =>
      let response :=
        set_range response (destination_range source_destination_pair) in
      dst_index <- gets destination_sheet_index ;;
      dst <- lift (getitem task dst_index) ;;
      let write_request :=
        ValuesUpdate dst (destination_range source_destination_pair) "RAW"
          response in
      id_index <- gets task_id_index ;;
      id <- lift (getitem task id_index) ;;
      _ <- execute_request_or_log_error fuel write_request
             ("Failed to write data for task " +:+ str id) ;;
      ret tt
  end.

(** The body of the outer loop of [process_tasks]. *)
Definition process_task (fuel : nat) (task : list cell) : M unit :=
  en_index <- gets enable_index ;;
  en <- lift (getitem task en_index) ;;
  if decide (en ≠ CStr "TRUE") then ret tt
  else if decide ((Z.of_nat (length task) - 5) `mod` 2 ≠ 0)%Z then
    id_index <- gets task_id_index ;;
    id <- lift (getitem task id_index) ;;
    add_error ("Task " +:+ str id +:+
               " is not configured properly. Check source and destination pair.")
  else
    pairs <- lift (get_source_destination_range_pairs task) ;;
    for_each pairs (process_pair fuel task).

Definition process_tasks (fuel : nat) : M unit :=
  ts <- gets tasks ;;
  for_each ts (process_task fuel).

(** ** Error Reporter *)

Definition handle_errors (fuel : nat) : M unit :=
  errs <- gets errors ;;
  if decide (0 < length errs) then
    let error_range := "Errors!A1:A" +:+ pretty (length errs) in
    let body := {| vr_range := Some (CStr error_range);
                   vr_majorDimension := Some "ROWS";
                   vr_values := Some errs |} in
    sheet_id <- gets configuration_sheet_id ;;
    let write_request :=
      ValuesUpdate (CStr sheet_id) (CStr error_range) "RAW" body in
    _ <- execute_request fuel write_request ;;
    ret tt
  else ret tt.

(** ** Orchestrator *)

(** [run], after [initialize] has obtained credentials and built the service
    handle. *)
Definition run (fuel : nat) : M unit :=
  _ <- fetch_config_data fuel ;;
  _ <- process_tasks fuel ;;
  handle_errors fuel.

End Program.

Notation "x <- m ;; k" := (bind m (λ x, k))
  (at level 100, m at next level, right associativity).

(** ** Specification-side vocabulary *)

(** The [k]-th pair of a row as the specification describes it: the cells at
    positions [5 + 2k] and [6 + 2k]. *)
Definition nth_pair (task : list cell) (k : nat) : option RangePair :=
  match task !! (5 + 2 * k), task !! (6 + 2 * k) with
  | Some s, Some d => Some (mkRangePair s d)
  | _, _ => None
  end.

(** The four recognised header labels and the field of [self] each one
    sets: the column index map. *)
Inductive column := SourceSheetId | DestinationSheetId | TaskId | Enable.

Definition label (c : column) : cell :=
  match c with
  | SourceSheetId => CStr "Source Sheet Id"
  | DestinationSheetId => CStr "Destination Sheet Id"
  | TaskId => CStr "ID"
  | Enable => CStr "Enable"
  end.

Definition index_of (c : column) (s : Replicator) : option nat :=
  match c with
  | SourceSheetId => source_sheet_index s
  | DestinationSheetId => destination_sheet_index s
  | TaskId => task_id_index s
  | Enable => enable_index s
  end.

(** Position [i] holds the last occurrence of [v] in [row]. *)
Definition last_occurrence (v : cell) (row : list cell) (i : nat) : Prop :=
  row !! i = Some v ∧ ∀ j, i < j → row !! j ≠ Some v.

(** The rows of the error sheet for a sequence of messages: one
    single-column row per message. *)
Definition error_rows (msgs : list string) : list (list cell) :=
  (λ m, [CStr m]) <$> msgs.

(** Whether an outcome is the rate-limit signal. *)
Definition rate_limited (o : Outcome) : bool :=
  match o with
  | Success _ => false
  | Failure e => bool_decide (status e = "429")
  | Dropped _ => false
  end.

(** What the caller of the executor sees of a final outcome. *)
Definition outcome_result (o : Outcome) : Result ValueRange :=
  match o with
  | Success response => Ok response
  | Failure e => Raise (HttpError e)
  | Dropped name => Raise (OtherError name)
  end.

(** An event that belongs to the handling of [request]: one of its
    executions, or a backoff sleep. *)
Definition event_of (request : Request) (ev : Event) : Prop :=
  ev = Slept 100 ∨ ∃ o, ev = Executed request o.

(** The read request and the write request the Task Processor builds for a
    pair. *)
Definition read_request (src : cell) (p : RangePair) : Request :=
  ValuesGet src (source_range p) "ROWS" (Some "UNFORMATTED_VALUE").

Definition write_request (dst : cell) (p : RangePair) (response : ValueRange)
    : Request :=
  ValuesUpdate dst (destination_range p) "RAW"
    (set_range response (destination_range p)).

(** The calls of a run in which every pair is copied: for each pair in order,
    one successful read followed by one successful write of what was read. *)
Inductive copied (src dst : cell) : list RangePair → list Event → Prop :=
| copied_nil : copied src dst [] []
| copied_cons p ps r a evs :
    copied src dst ps evs →
    copied src dst (p :: ps)
      (Executed (read_request src p) (Success r)
       :: Executed (write_request dst p r) (Success a)
       :: evs).

(** An enabled row with its five leading cells, an even tail, and the three
    fields the copies use present. *)
Definition well_formed (s : Replicator) (task : list cell) : Prop :=
  getitem task (enable_index s) = Ok (CStr "TRUE")
  ∧ 5 ≤ length task
  ∧ ((Z.of_nat (length task) - 5) `mod` 2 = 0)%Z
  ∧ (∃ src, getitem task (source_sheet_index s) = Ok src)
  ∧ (∃ dst, getitem task (destination_sheet_index s) = Ok dst)
  ∧ (∃ id, getitem task (task_id_index s) = Ok id).

(** [evs] are the calls of copying every pair of [task]: [(L - 5) / 2] pairs,
    the [k]-th read from position [5 + 2k] of the row on the source sheet and
    written to position [6 + 2k] on the destination sheet. *)
Definition task_trace (s : Replicator) (task : list cell) (evs : list Event)
    : Prop :=
  ∃ src dst pairs,
    getitem task (source_sheet_index s) = Ok src
    ∧ getitem task (destination_sheet_index s) = Ok dst
    ∧ Z.of_nat (length pairs) = ((Z.of_nat (length task) - 5) `div` 2)%Z
    ∧ (∀ k, k < length pairs → pairs !! k = nth_pair task k)
    ∧ copied src dst pairs evs.

Section Service.
Context `{Remote}.

(** [answered request n w evs o w']: from service state [w], [request] is
    rate-limited [n] times and then answered by [o], which is not the
    rate-limit signal; [evs] are the executions and sleeps this takes and
    [w'] is the service state afterwards. *)
Inductive answered (request : Request)
    : nat → World → list Event → Outcome → World → Prop :=
| answered_now w o w' :
    request_execute request w = (o, w') →
    rate_limited o = false →
    answered request 0 w [Executed request o] o w'
| answered_later n w e w1 evs o w' :
    request_execute request w = (Failure e, w1) →
    status e = "429" →
    answered request n (time_sleep 100 w1) evs o w' →
    answered request (S n) w
      (Executed request (Failure e) :: Slept 100 :: evs) o w'.

(** Every request succeeds at the first attempt. *)
Definition always_succeeds : Prop :=
  ∀ request w, ∃ response w',
    request_execute request w = (Success response, w').

End Service.

(** The machine after one more Error Record has been added. *)
Definition with_error `{Remote} (st : State) (message : string) : State :=
  mkState (set_errors (self st) (errors (self st) ++ [[CStr message]]))
    (world st) (log st).

(** [s'] differs from [s] at most in Error Records appended, one
    single-column row per message. *)
Definition errors_appended (s s' : Replicator) (msgs : list string) : Prop :=
  s' = set_errors s (errors s ++ error_rows msgs).

(** The relation between the machine before and after a piece of the Task
    Processor: the column indices, the task list and the configuration are
    the same, and Error Records were only appended. *)
Definition advanced `{Remote} (st st' : State) : Prop :=
  ∃ msgs, errors_appended (self st) (self st') msgs.

(** ** Concrete services used to run the program *)

(** A scripted service: each [request.execute()] consumes the next outcome of
    the script; once the script is exhausted every request is rate-limited. *)
Definition quota_exceeded : HttpErr := mkHttpErr "429" "Quota exceeded".

Definition script : Remote :=
  {| World := list Outcome;
     request_execute := λ _ w,
       match w with
       | o :: w' => (o, w')
       | [] => (Failure quota_exceeded, [])
       end;
     time_sleep := λ _ w, w |}.

(** A service on which every request succeeds; the answer carries the number
    of requests served so far. *)
Definition steady_answer (n : nat) : ValueRange :=
  {| vr_range := Some (CStr "Sheet1!A1");
     vr_majorDimension := Some "ROWS";
     vr_values := Some [[CNum (Z.of_nat n)]] |}.

Definition steady : Remote :=
  {| World := nat;
     request_execute := λ _ n, (Success (steady_answer n), S n);
     time_sleep := λ _ n, n |}.

(** A configuration as in the scenarios of the specification: the header
    row, the replicator after resolving it, and some task rows. *)
Definition standard_header : list cell :=
  [CStr "ID"; CStr "Source Sheet Id"; CStr "Destination Sheet Id";
   CStr "Enable"; CStr "Reserved"].

Definition configured (ts : list (list cell)) : Replicator :=
  set_tasks (resolve_header standard_header (init "cfg")) ts.

Definition task_T1 : list cell :=
  [CStr "T1"; CStr "srcSheet"; CStr "dstSheet"; CStr "TRUE"; CStr "";
   CStr "A1:A2"; CStr "B1:B2"].

Definition task_T2 : list cell :=
  [CStr "T2"; CStr "srcSheet"; CStr "dstSheet"; CStr "TRUE"; CStr "";
   CStr "A1:A2"; CStr "B1:B2"; CStr "C1:C9"; CStr "D1:D9"].

Definition task_disabled_odd : list cell :=
  [CStr "T3"; CStr "srcSheet"; CStr "dstSheet"; CStr "FALSE"; CStr "";
   CStr "A1:A2"].

Definition task_enabled_odd : list cell :=
  [CStr "T4"; CStr "srcSheet"; CStr "dstSheet"; CStr "TRUE"; CStr "";
   CStr "A1:A2"].

Definition bad_range : HttpErr := mkHttpErr "400" "Unable to parse range".

(** The answer to an update: it has none of the keys the program reads. *)
Definition acknowledged : ValueRange :=
  {| vr_range := None; vr_majorDimension := None; vr_values := None |}.

Definition some_values : ValueRange :=
  {| vr_range := Some (CStr "Sheet1!A1:A2");
     vr_majorDimension := Some "ROWS";
     vr_values := Some [[CNum 1]; [CBool true]] |}.

Definition pair_AB : RangePair := mkRangePair (CStr "A1:A2") (CStr "B1:B2").

Definition pair_CD : RangePair := mkRangePair (CStr "C1:C9") (CStr "D1:D9").

Definition read_AB : Request := read_request (CStr "srcSheet") pair_AB.

(** A row cut short by the service, which drops trailing empty cells, under
    a header that puts the Enable column first. *)
Definition enable_first_header : list cell :=
  [CStr "Enable"; CStr "Source Sheet Id"; CStr "Destination Sheet Id";
   CStr "ID"; CStr "Reserved"].

Definition task_three_cells : list cell :=
  [CStr "TRUE"; CStr "srcSheet"; CStr "dstSheet"].

(** The same header, and an enabled row with an odd tail that stops before
    the ID column. *)
Definition task_odd_without_id : list cell :=
  [CStr "TRUE"; CStr "srcSheet"].

(** A configuration response without a [values] entry, one with an empty
    [values] list, and one with the standard header followed by the given
    rows. *)
Definition no_values : ValueRange :=
  {| vr_range := Some (CStr "Configuration!A1:Z50");
     vr_majorDimension := Some "ROWS";
     vr_values := None |}.

Definition empty_values : ValueRange :=
  {| vr_range := Some (CStr "Configuration!A1:Z50");
     vr_majorDimension := Some "ROWS";
     vr_values := Some [] |}.

Definition config_values (rows : list (list cell)) : ValueRange :=
  {| vr_range := Some (CStr "Configuration!A1:Z50");
     vr_majorDimension := Some "ROWS";
     vr_values := Some (standard_header :: rows) |}.

(** The machine right after [__init__], on the scripted service. *)
Definition scripted (s : Replicator) (outcomes : list Outcome) : @State script :=
  @mkState script s outcomes [].

(** The machine on the service where every request succeeds. *)
Definition on_steady (s : Replicator) : @State steady :=
  @mkState steady s 0 [].

Definition config_request : Request :=
  ValuesGet (CStr "cfg") (CStr "Configuration!A1:Z50") "ROWS" None.

(** A header that names the sheet columns to the right of the first pair,
    and an enabled row with one pair under it. *)
Definition far_header : list cell :=
  [CStr "ID"; CStr "Enable"; CStr ""; CStr ""; CStr ""; CStr ""; CStr "";
   CStr "Source Sheet Id"; CStr "Destination Sheet Id"].

Definition task_without_sheets : list cell :=
  [CStr "T7"; CStr "TRUE"; CStr ""; CStr ""; CStr ""; CStr "A1:A2";
   CStr "B1:B2"].

(** The cells a sequence of pairs was made of, in order. *)
Definition pair_cells (pairs : list RangePair) : list cell :=
  flat_map (λ p, [source_range p; destination_range p]) pairs.

(** The exceptions a missing column can cause: [IndexError] when the row
    ends before a column, [TypeError] when one of the four indices was never
    set. *)
Definition column_error (s : Replicator) (e : exn) : Prop :=
  e = IndexError ∨ (e = TypeError ∧ ∃ c, index_of c s = None).

(** As [advanced], with at most [n] Error Records appended. *)
Definition advanced_by `{Remote} (n : nat) (st st' : State) : Prop :=
  ∃ msgs, errors_appended (self st) (self st') msgs ∧ length msgs ≤ n.


(** A header row without the Enable label. *)
Definition header_without_enable : list cell :=
  [CStr "ID"; CStr "Source Sheet Id"; CStr "Destination Sheet Id"].

(** A service that answers the configuration fetch (the only read made
    without a render option) with [config], every other read with
    [some_values], and acknowledges every update. *)
Definition obliging (config : ValueRange) : Remote :=
  {| World := unit;
     request_execute := λ request w,
       match request with
       | ValuesGet _ _ _ None => (Success config, w)
       | ValuesGet _ _ _ (Some _) => (Success some_values, w)
       | ValuesUpdate _ _ _ _ => (Success acknowledged, w)
       end;
     time_sleep := λ _ w, w |}.

(** [attempt request evs res]: the events of one call of the executor for
    [request] that ends with [res].  Each execution answered by the
    rate-limit signal is followed by a sleep of 100 and by the next
    execution of the same request; the call ends with the first execution
    answered otherwise, whose outcome is the result, or, when the retries
    can no longer be nested, in [RecursionError] after the last sleep. *)
Inductive attempt (request : Request)
    : list Event → Result ValueRange → Prop :=
| attempt_final o :
    rate_limited o = false →
    attempt request [Executed request o] (outcome_result o)
| attempt_overflow e :
    status e = "429" →
    attempt request [Executed request (Failure e); Slept 100]
      (Raise RecursionError)
| attempt_again e evs res :
    status e = "429" →
    attempt request evs res →
    attempt request (Executed request (Failure e) :: Slept 100 :: evs) res.

(** The exceptions that pass through the handlers of the two executors:
    [RecursionError], and whatever [request.execute()] raises that is not an
    [HttpError]. *)
Definition uncaught (e : exn) : Prop :=
  e = RecursionError ∨ ∃ name, e = OtherError name.

(** * Properties *)

(** ** Range Pair Extractor *)

Lemma take2_drop (l : list cell) i :
  i + 2 ≤ length l →
  ∃ x y, l !! i = Some x ∧ l !! (S i) = Some y ∧ take 2 (drop i l) = [x; y].
Proof.
  revert i. induction l as [|a l IH]; intros i Hi; simpl in *; [lia|].
  destruct i as [|i].
  - destruct l as [|b l]; simpl in *; [lia|]. exists a, b. done.
  - destruct (IH i) as (x & y & ? & ? & ?); [lia|]. exists x, y. done.
Qed.

Lemma pairs_loop_spec (task : list cell) n : ∀ a acc,
  5 + 2 * (a + n) ≤ length task →
  ∃ ps, pairs_loop task ((λ k, 5 + k * 2) <$> seq a n) acc = Ok (acc ++ ps)
        ∧ length ps = n
        ∧ ∀ j, j < n → ps !! j = nth_pair task (a + j).
Proof.
  induction n as [|n IH]; intros a acc Hlen; cbn [seq].
  - exists []. rewrite app_nil_r. split_and!; [done..|]. intros; lia.
  - destruct (take2_drop task (5 + a * 2)) as (x & y & Hx & Hy & Htk); [lia|].
    rewrite fmap_cons. cbn [pairs_loop]. rewrite Htk. cbn [unpack2].
    destruct (IH (S a) (acc ++ [mkRangePair x y])) as (ps & -> & Hl & Hps); [lia|].
    exists (mkRangePair x y :: ps). rewrite <- app_assoc. split_and!; [done|simpl; lia|].
    intros [|j] Hj; simpl.
    + unfold nth_pair. replace (5 + 2 * (a + 0)) with (5 + a * 2) by lia.
      replace (6 + 2 * (a + 0)) with (S (5 + a * 2)) by lia. by rewrite Hx, Hy.
    + rewrite Hps by lia. f_equal. lia.
Qed.

Lemma range_5_even (n m : nat) :
  n = 5 + 2 * m → range 5 n 2 = (λ k, 5 + k * 2) <$> seq 0 m.
Proof.
  intros ->. unfold range. do 2 f_equal.
  replace (5 + 2 * m - 5 + (2 - 1)) with (1 + m * 2) by lia.
  rewrite Nat.div_add by lia. done.
Qed.

Lemma even_tail_length (task : list cell) :
  5 ≤ length task →
  ((Z.of_nat (length task) - 5) `mod` 2 = 0)%Z →
  length task = 5 + 2 * ((length task - 5) / 2).
Proof.
  intros Hge Hmod.
  assert (Hnat : (length task - 5) `mod` 2 = 0).
  { apply Nat2Z.inj. rewrite Nat2Z.inj_mod, Nat2Z.inj_sub by done. exact Hmod. }
  pose proof (Nat.div_mod_eq (length task - 5) 2). lia.
Qed.

Example pairs_scenario :
  get_source_destination_range_pairs
    [CStr "T1"; CStr "srcSheet"; CStr "dstSheet"; CStr "TRUE"; CStr "";
     CStr "A1:A2"; CStr "B1:B2"]
  = Ok [mkRangePair (CStr "A1:A2") (CStr "B1:B2")].
Proof. reflexivity. Qed.

Example pairs_odd_tail :
  get_source_destination_range_pairs
    [CStr "T1"; CStr "s"; CStr "d"; CStr "TRUE"; CStr ""; CStr "A1"]
  = Raise ValueError.
Proof. reflexivity. Qed.

(** The extractor on a row with five leading cells and an even tail. *)
Lemma extract_even_row (task : list cell) :
  5 ≤ length task →
  ((Z.of_nat (length task) - 5) `mod` 2 = 0)%Z →
  ∃ pairs,
    get_source_destination_range_pairs task = Ok pairs
    ∧ length pairs = (length task - 5) / 2
    ∧ ∀ k, k < length pairs → pairs !! k = nth_pair task k.
Proof.
  intros Hge Hmod. pose proof (even_tail_length task Hge Hmod) as HL.
  set (m := (length task - 5) / 2) in *.
  destruct (pairs_loop_spec task m 0 []) as (ps & Hps & Hlen & Hnth); [lia|].
  exists ps. unfold get_source_destination_range_pairs.
  rewrite (range_5_even _ m HL), Hps. split_and!; [done..|].
  intros k Hk. apply Hnth. lia.
Qed.

(** C9.  For a row of length [L >= 5] with [L - 5] even, the extractor
    returns [(L - 5) / 2] pairs, the [k]-th one made of the cells at
    positions [5 + 2k] and [6 + 2k]; it does not depend on the state of the
    machine and leaves it unchanged, so a second call yields the same
    sequence. *)
Theorem range_pairs_extracted (task : list cell) :
  5 ≤ length task →
  ((Z.of_nat (length task) - 5) `mod` 2 = 0)%Z →
  ∃ pairs,
    get_source_destination_range_pairs task = Ok pairs
    ∧ length pairs = (length task - 5) / 2
    ∧ (∀ k, k < (length task - 5) / 2 →
         ∃ s d, task !! (5 + 2 * k) = Some s
                ∧ task !! (6 + 2 * k) = Some d
                ∧ pairs !! k = Some (mkRangePair s d))
    ∧ (∀ (R : Remote) (st : State),
         lift (get_source_destination_range_pairs task) st = (Ok pairs, st)).
Proof.
  intros Hge Hmod.
  destruct (extract_even_row task Hge Hmod) as (ps & Hps & Hlen & Hnth).
  exists ps. rewrite Hps. split_and!; [done..| |done].
  intros k Hk. specialize (Hnth k ltac:(lia)).
  assert (is_Some (ps !! k)) as [p Hp] by (apply lookup_lt_is_Some; lia).
  rewrite Hp in Hnth. unfold nth_pair in Hnth.
  destruct (task !! (5 + 2 * k)) as [s|]; [|done].
  destruct (task !! (6 + 2 * k)) as [d|]; [|done].
  exists s, d. by rewrite Hp, Hnth.
Qed.

Lemma range_pairs_extracted_witness :
  ∃ pairs,
    get_source_destination_range_pairs
      [CStr "T1"; CStr "srcSheet"; CStr "dstSheet"; CStr "TRUE"; CStr "";
       CStr "A1:A2"; CStr "B1:B2"; CStr "C1"; CStr "D1"] = Ok pairs
    ∧ length pairs = 2.
Proof.
  destruct (range_pairs_extracted
    [CStr "T1"; CStr "srcSheet"; CStr "dstSheet"; CStr "TRUE"; CStr "";
     CStr "A1:A2"; CStr "B1:B2"; CStr "C1"; CStr "D1"])
    as (pairs & Hp & Hl & _); [simpl; lia | reflexivity |].
  exists pairs. split; [exact Hp | exact Hl].
Defined.

(** ** Quota-Aware Request Executor *)

Section Executor.
Context `{Remote}.

Lemma execute_request_unfold fuel request st :
  execute_request fuel request st =
  let (outcome, w) := request_execute request (world st) in
  let st1 := mkState (self st) w (log st ++ [Executed request outcome]) in
  match outcome with
  | Success response => (Ok response, st1)
  | Failure e =>
      if decide (status e = "429") then
        let st2 := mkState (self st1) (time_sleep 100 (world st1))
                     (log st1 ++ [Slept 100]) in
        match fuel with
        | 0 => (Raise RecursionError, st2)
        | S fuel' => execute_request fuel' request st2
        end
      else (Raise (HttpError e), st1)
  | Dropped name => (Raise (OtherError name), st1)
  end.
Proof. destruct fuel; reflexivity. Qed.

(** When the rate-limit signals before the final answer are no more than
    the nested retries there is room for, the executor returns or raises
    what the service finally answers. *)
Lemma execute_request_answered request n w evs o w' :
  answered request n w evs o w' →
  ∀ fuel s l, n ≤ fuel →
    execute_request fuel request (mkState s w l)
    = (outcome_result o, mkState s w' (l ++ evs)).
Proof.
  induction 1 as [w o w' Hex Hrl | n w e w1 evs o w' Hex He _ IH];
    intros fuel s l Hfuel; rewrite execute_request_unfold; simpl; rewrite Hex.
  - destruct o as [r|e|name]; simpl in *; [done| |done].
    apply bool_decide_eq_false in Hrl. by rewrite decide_False.
  - rewrite decide_True by done. destruct fuel as [|fuel]; [lia|].
    simpl. rewrite IH by lia. by rewrite <- !app_assoc.
Qed.

(** When the rate-limit signals are more than the nested retries there is
    room for, the final answer is never reached: the executor ends in
    [RecursionError]. *)
Lemma execute_request_cut_off request n w evs o w' :
  answered request n w evs o w' →
  ∀ fuel s l, fuel < n →
    (execute_request fuel request (mkState s w l)).1 = Raise RecursionError.
Proof.
  induction 1 as [w o w' Hex Hrl | n w e w1 evs o w' Hex He _ IH];
    intros fuel s l Hfuel; [lia|].
  rewrite execute_request_unfold; simpl; rewrite Hex.
  rewrite decide_True by done. destruct fuel as [|fuel]; [done|].
  apply IH. lia.
Qed.

(** The calls behind one answer: each rate-limit signal is followed by a
    sleep of 100 and a new execution of the same request. *)
Lemma answered_events request n w evs o w' :
  answered request n w evs o w' →
  length evs = 2 * n + 1
  ∧ evs !! (2 * n) = Some (Executed request o)
  ∧ ∀ i, i < n →
      (∃ e, status e = "429"
            ∧ evs !! (2 * i) = Some (Executed request (Failure e)))
      ∧ evs !! (2 * i + 1) = Some (Slept 100).
Proof.
  induction 1 as [w o w' Hex Hrl | n w e w1 evs o w' Hex He _ (IHl & IHo & IHi)].
  - split_and!; [done..|]. intros; lia.
  - split_and!.
    + simpl. lia.
    + replace (2 * S n) with (S (S (2 * n))) by lia. done.
    + intros [|i] Hi.
      * split; [by exists e|done].
      * replace (2 * S i) with (S (S (2 * i))) by lia.
        apply IHi. lia.
Qed.

(** What any call of the executor does to the machine, whatever the
    service answers: [self] is untouched, the log grows by events of this
    request only, and an [HttpError] that leaves it is never the rate-limit
    signal. *)
Lemma event_of_executed request o : event_of request (Executed request o).
Proof. right. by exists o. Qed.

Lemma event_of_slept request : event_of request (Slept 100).
Proof. by left. Qed.

#[local] Hint Resolve event_of_executed event_of_slept : core.

Lemma execute_request_inv fuel request : ∀ st r st',
  execute_request fuel request st = (r, st') →
  self st' = self st
  ∧ (∃ evs, log st' = log st ++ evs ∧ Forall (event_of request) evs)
  ∧ (∀ h, r = Raise (HttpError h) → status h ≠ "429").
Proof.
  induction fuel as [|fuel IH]; intros st r st'; rewrite execute_request_unfold;
    destruct (request_execute request (world st)) as [[resp|e|name] w]; simpl.
  - intros [= <- <-]. split_and!; [done| |done]. eauto.
  - destruct (decide (status e = "429")); intros [= <- <-]; simpl.
    + split_and!; [done| |done]. exists [Executed request (Failure e); Slept 100].
      rewrite <- app_assoc. eauto.
    + split_and!; [done| |by intros ? [= <-]]. eauto.
  - intros [= <- <-]. split_and!; [done| |done]. eauto.
  - intros [= <- <-]. split_and!; [done| |done]. eauto.
  - destruct (decide (status e = "429")).
    + intros Hrec. apply IH in Hrec as (Hs & (evs & Hl & Hevs) & Hr). simpl in *.
      split_and!; [done| |done].
      exists (Executed request (Failure e) :: Slept 100 :: evs).
      rewrite Hl, <- !app_assoc. eauto.
    + intros [= <- <-]. split_and!; [done| |by intros ? [= <-]]. eauto.
  - intros [= <- <-]. split_and!; [done| |done]. eauto.
Qed.


(** A rate-limit signal followed by a success gives the caller the very
    response that the successful execution alone gives. *)
Corollary rate_limit_is_transparent request fuel s l l' w e w1 r w2 :
  request_execute request w = (Failure e, w1) →
  status e = "429" →
  request_execute request (time_sleep 100 w1) = (Success r, w2) →
  (execute_request (S fuel) request (mkState s w l)).1 = Ok r
  ∧ (execute_request fuel request (mkState s (time_sleep 100 w1) l')).1 = Ok r.
Proof.
  intros Hlimit He Hok. split.
  - rewrite execute_request_unfold. simpl. rewrite Hlimit.
    rewrite decide_True by done. rewrite execute_request_unfold. simpl.
    by rewrite Hok.
  - rewrite execute_request_unfold. simpl. by rewrite Hok.
Qed.

(** C4.  The executor on a request that meets [n] rate-limit signals
    (status 429) before its final answer.  It sleeps 100 after each signal
    and executes the same request again.  As long as [n] does not exceed
    the nested retries the recursion limit leaves room for, what it returns
    or raises is the final answer unchanged: the response on success, the
    [HttpError] on any other failure; the result is then the same as for
    [n = 0], so a 429 followed by a success is transparent.  When [n]
    exceeds that room the final answer is never reached: the executor ends
    in [RecursionError], so the retry is not indefinite. *)
Theorem execute_request_contract request n (st : State) evs o w' fuel :
  answered request n (world st) evs o w' →
  (n ≤ fuel →
     execute_request fuel request st
     = (outcome_result o, mkState (self st) w' (log st ++ evs)))
  ∧ (fuel < n → (execute_request fuel request st).1 = Raise RecursionError)
  ∧ length evs = 2 * n + 1
  ∧ evs !! (2 * n) = Some (Executed request o)
  ∧ (∀ i, i < n →
       (∃ e, status e = "429"
             ∧ evs !! (2 * i) = Some (Executed request (Failure e)))
       ∧ evs !! (2 * i + 1) = Some (Slept 100)).
Proof.
  intros Hans. destruct st as [s w l]; simpl in *. split_and!.
  - by apply execute_request_answered.
  - by eapply execute_request_cut_off.
  - by eapply answered_events.
  - by eapply answered_events.
  - by eapply answered_events.
Qed.

End Executor.

(** ** Task Processor: one pair *)

Section Processor.
Context `{Remote}.

Ltac run_monad :=
  unfold bind, gets, lift, ret, modify, raise, add_error; simpl.

Lemma add_error_run message (st : State) :
  add_error message st = (Ok tt, with_error st message).
Proof. reflexivity. Qed.

Lemma execute_request_or_log_error_run fuel request error_message (st : State) :
  execute_request_or_log_error fuel request error_message st =
  match execute_request fuel request st with
  | (Ok response, st') => (Ok (Some response), st')
  | (Raise (HttpError e), st') =>
      (Ok None, with_error st' (error_message +:+ ": " +:+ text e))
  | (Raise e, st') => (Raise e, st')
  end.
Proof.
  unfold execute_request_or_log_error.
  destruct (execute_request fuel request st) as [[r|[]] st']; reflexivity.
Qed.

(** One iteration of the inner loop, for a row whose three fields are
    present, in terms of what the executor does for the read and for the
    write. *)
Lemma process_pair_run fuel task p (st : State) src dst id :
  getitem task (source_sheet_index (self st)) = Ok src →
  getitem task (destination_sheet_index (self st)) = Ok dst →
  getitem task (task_id_index (self st)) = Ok id →
  process_pair fuel task p st =
  match execute_request fuel (read_request src p) st with
  | (Ok r, st1) =>
      match execute_request fuel (write_request dst p r) st1 with
      | (Ok _, st2) => (Ok tt, st2)
      | (Raise (HttpError e), st2) =>
          (Ok tt, with_error st2
                    ("Failed to write data for task " +:+ str id +:+ ": " +:+ text e))
      | (Raise e, st2) => (Raise e, st2)
      end
  | (Raise (HttpError e), st1) =>
      (Ok tt, with_error st1
                ("Failed to fetch data for task " +:+ str id +:+ ": " +:+ text e))
  | (Raise e, st1) => (Raise e, st1)
  end.
Proof.
  intros Hsrc Hdst Hid. unfold process_pair. run_monad.
  rewrite Hsrc, Hid. rewrite execute_request_or_log_error_run.
  fold (read_request src p).
  destruct (execute_request fuel (read_request src p) st) as [[r|e] st1] eqn:Hread;
    [|by destruct e].
  apply execute_request_inv in Hread as (Hself & _ & _).
  rewrite Hself, Hdst, Hid. rewrite execute_request_or_log_error_run.
  fold (write_request dst p r).
  destruct (execute_request fuel (write_request dst p r) st1) as [[a|e] st2];
    [done|by destruct e].
Qed.

(** *** Error Records only accumulate *)

Lemma errors_appended_refl s : errors_appended s s [].
Proof. unfold errors_appended, error_rows. destruct s; simpl. by rewrite app_nil_r. Qed.

Lemma errors_appended_trans s1 s2 s3 m1 m2 :
  errors_appended s1 s2 m1 → errors_appended s2 s3 m2 →
  errors_appended s1 s3 (m1 ++ m2).
Proof.
  unfold errors_appended, error_rows. intros -> ->. simpl.
  by rewrite fmap_app, app_assoc.
Qed.

Lemma errors_appended_with_error (st : State) message :
  errors_appended (self st) (self (with_error st message)) [message].
Proof. reflexivity. Qed.

Lemma advanced_refl st : advanced st st.
Proof. exists []. apply errors_appended_refl. Qed.

Lemma advanced_trans st1 st2 st3 :
  advanced st1 st2 → advanced st2 st3 → advanced st1 st3.
Proof. intros [m1 H1] [m2 H2]. exists (m1 ++ m2). by eapply errors_appended_trans. Qed.

Lemma advanced_self st st' : self st' = self st → advanced st st'.
Proof. intros Hs. exists []. rewrite Hs. apply errors_appended_refl. Qed.

Lemma advanced_with_error st st' message :
  advanced st st' → advanced st (with_error st' message).
Proof.
  intros Ha. eapply advanced_trans; [exact Ha|].
  eexists. apply errors_appended_with_error.
Qed.

Lemma advanced_indices st st' c :
  advanced st st' → index_of c (self st') = index_of c (self st).
Proof. intros [msgs Hm]. rewrite Hm. by destruct c. Qed.

Lemma advanced_config st st' :
  advanced st st' → configuration_sheet_id (self st') = configuration_sheet_id (self st).
Proof. intros [msgs Hm]. by rewrite Hm. Qed.

Lemma execute_request_advanced fuel request st r st' :
  execute_request fuel request st = (r, st') → advanced st st'.
Proof. intros Hex. apply advanced_self. by apply execute_request_inv in Hex as (? & _). Qed.

Lemma execute_request_or_log_error_advanced fuel request message st r st' :
  execute_request_or_log_error fuel request message st = (r, st') →
  advanced st st'.
Proof.
  rewrite execute_request_or_log_error_run.
  destruct (execute_request fuel request st) as [[a|e] st1] eqn:Hex;
    apply execute_request_advanced in Hex; [| destruct e];
    intros [= <- <-]; auto using advanced_with_error.
Qed.

Lemma for_each_advanced {A} (body : A → M unit) (l : list A) :
  (∀ x st r st', body x st = (r, st') → advanced st st') →
  ∀ st r st', for_each l body st = (r, st') → advanced st st'.
Proof.
  intros Hbody. induction l as [|x l IH]; intros st r st'; simpl.
  - intros [= <- <-]. apply advanced_refl.
  - unfold bind. destruct (body x st) as [[[]|e] st1] eqn:Hx;
      apply Hbody in Hx.
    + intros Hrest. apply IH in Hrest. by eapply advanced_trans.
    + by intros [= <- <-].
Qed.

Lemma process_pair_advanced fuel task p st r st' :
  process_pair fuel task p st = (r, st') → advanced st st'.
Proof.
  unfold process_pair. run_monad.
  destruct (getitem task (source_sheet_index (self st))) as [src|e];
    [|intros [= <- <-]; apply advanced_refl..].
  destruct (getitem task (task_id_index (self st))) as [id|e];
    [|intros [= <- <-]; apply advanced_refl..].
  match goal with |- context [execute_request_or_log_error ?f ?q ?m st] =>
    destruct (execute_request_or_log_error f q m st) as [[[resp|]|e] st1] eqn:Hread
  end; apply execute_request_or_log_error_advanced in Hread;
    [|by intros [= <- <-]..].
  destruct (getitem task (destination_sheet_index (self st1))) as [dst|e];
    [|by intros [= <- <-]..].
  destruct (getitem task (task_id_index (self st1))) as [id'|e];
    [|by intros [= <- <-]..].
  match goal with |- context [execute_request_or_log_error ?f ?q ?m st1] =>
    destruct (execute_request_or_log_error f q m st1) as [[a|e] st2] eqn:Hwrite
  end; apply execute_request_or_log_error_advanced in Hwrite;
    intros [= <- <-]; by eapply advanced_trans.
Qed.

Lemma process_task_advanced fuel task st r st' :
  process_task fuel task st = (r, st') → advanced st st'.
Proof.
  unfold process_task. run_monad.
  destruct (getitem task (enable_index (self st))) as [en|e];
    [|intros [= <- <-]; apply advanced_refl..].
  destruct (decide (en ≠ CStr "TRUE")); [intros [= <- <-]; apply advanced_refl|].
  destruct (decide _).
  - destruct (getitem task (task_id_index (self st))) as [id|e];
      intros [= <- <-]; [|apply advanced_refl..].
    apply (advanced_with_error st st), advanced_refl.
  - destruct (get_source_destination_range_pairs task) as [pairs|e];
      [|intros [= <- <-]; apply advanced_refl..].
    apply for_each_advanced. intros x. apply process_pair_advanced.
Qed.

Lemma process_tasks_loop_advanced fuel ts st r st' :
  for_each ts (process_task fuel) st = (r, st') → advanced st st'.
Proof. apply for_each_advanced. intros x. apply process_task_advanced. Qed.

(** *** Loops *)

Lemma for_each_app {A} (body : A → M unit) (l1 l2 : list A) (st : State) :
  for_each (l1 ++ l2) body st =
  match for_each l1 body st with
  | (Ok _, st1) => for_each l2 body st1
  | (Raise e, st1) => (Raise e, st1)
  end.
Proof.
  revert st. induction l1 as [|x l1 IH]; intros st; simpl; [done|].
  unfold bind. destruct (body x st) as [[[]|e] st1]; [apply IH|done..].
Qed.

Lemma for_each_cons_ok {A} (body : A → M unit) x (l : list A) (st st' : State) :
  body x st = (Ok tt, st') →
  for_each (x :: l) body st = for_each l body st'.
Proof. intros Hx. simpl. unfold bind. by rewrite Hx. Qed.

(** ** Task Processor: one task *)

Lemma process_task_copies fuel task (st : State) pairs :
  getitem task (enable_index (self st)) = Ok (CStr "TRUE") →
  ((Z.of_nat (length task) - 5) `mod` 2 = 0)%Z →
  get_source_destination_range_pairs task = Ok pairs →
  process_task fuel task st = for_each pairs (process_pair fuel task) st.
Proof.
  intros Hen Heven Hpairs. unfold process_task. run_monad.
  rewrite Hen. rewrite decide_False by (by intros []).
  rewrite decide_False by (by intros []). by rewrite Hpairs.
Qed.

(** C2.  A row whose Enable cell is anything but the string ["TRUE"] is
    skipped: the machine is left exactly as it was (no remote call, no
    sleep, no Error Record), whatever else the row holds, and the loop goes
    on with the rows that follow. *)
Theorem disabled_task_skipped fuel task rest (st : State) en :
  getitem task (enable_index (self st)) = Ok en →
  en ≠ CStr "TRUE" →
  process_task fuel task st = (Ok tt, st)
  ∧ for_each (task :: rest) (process_task fuel) st
    = for_each rest (process_task fuel) st.
Proof.
  intros Hen Hne.
  assert (process_task fuel task st = (Ok tt, st)) as Hskip.
  { unfold process_task. run_monad. rewrite Hen. by rewrite decide_True. }
  split; [done|]. by apply for_each_cons_ok.
Qed.

(** C3, amended.  An enabled row with [L - 5] odd whose ID cell is present
    gets exactly one Error Record, which names the ID; no remote call is
    made for it, and the loop goes on with the rows that follow. *)
Theorem odd_tail_recorded fuel task rest (st : State) id :
  getitem task (enable_index (self st)) = Ok (CStr "TRUE") →
  ((Z.of_nat (length task) - 5) `mod` 2 ≠ 0)%Z →
  getitem task (task_id_index (self st)) = Ok id →
  let message :=
    "Task " +:+ str id +:+
    " is not configured properly. Check source and destination pair." in
  let st' := with_error st message in
  process_task fuel task st = (Ok tt, st')
  ∧ errors (self st') = errors (self st) ++ [[CStr message]]
  ∧ log st' = log st
  ∧ world st' = world st
  ∧ for_each (task :: rest) (process_task fuel) st
    = for_each rest (process_task fuel) st'.
Proof.
  intros Hen Hodd Hid message st'.
  assert (process_task fuel task st = (Ok tt, st')) as Hrun.
  { unfold process_task. run_monad. rewrite Hen.
    rewrite decide_False by (by intros []).
    rewrite decide_True by done. by rewrite Hid. }
  split_and!; [done..|]. by apply for_each_cons_ok.
Qed.

(** C5.  In an enabled row with an even tail whose fields are present,
    take any pair [p], reached after the pairs [before] it were processed.
    If the read for [p] fails with an [HttpError] (the executor lets none
    with status 429 through), one Error Record holding the task's ID and
    the text of the failure is added, the only remote calls made for [p]
    are executions of its read request, so its write is skipped, and
    processing goes on with the remaining pairs [ps] of the row and then
    with the remaining rows [rest].  If the read succeeds and the write
    fails, one Error Record is added likewise and processing goes on in the
    same way. *)
Theorem pair_failure_is_local fuel task before p ps rest (st0 st : State)
    src dst id :
  getitem task (enable_index (self st0)) = Ok (CStr "TRUE") →
  ((Z.of_nat (length task) - 5) `mod` 2 = 0)%Z →
  getitem task (source_sheet_index (self st0)) = Ok src →
  getitem task (destination_sheet_index (self st0)) = Ok dst →
  getitem task (task_id_index (self st0)) = Ok id →
  get_source_destination_range_pairs task = Ok (before ++ p :: ps) →
  for_each before (process_pair fuel task) st0 = (Ok tt, st) →
  (∀ e st1,
     execute_request fuel (read_request src p) st = (Raise (HttpError e), st1) →
     let message :=
       "Failed to fetch data for task " +:+ str id +:+ ": " +:+ text e in
     let st' := with_error st1 message in
     process_pair fuel task p st = (Ok tt, st')
     ∧ errors (self st') = errors (self st) ++ [[CStr message]]
     ∧ (∃ evs, log st' = log st ++ evs
               ∧ Forall (event_of (read_request src p)) evs)
     ∧ for_each (task :: rest) (process_task fuel) st0
       = (_ <- for_each ps (process_pair fuel task) ;;
          for_each rest (process_task fuel)) st')
  ∧ (∀ r st1 e st2,
       execute_request fuel (read_request src p) st = (Ok r, st1) →
       execute_request fuel (write_request dst p r) st1
       = (Raise (HttpError e), st2) →
       let message :=
         "Failed to write data for task " +:+ str id +:+ ": " +:+ text e in
       let st' := with_error st2 message in
       process_pair fuel task p st = (Ok tt, st')
       ∧ errors (self st') = errors (self st) ++ [[CStr message]]
       ∧ for_each (task :: rest) (process_task fuel) st0
         = (_ <- for_each ps (process_pair fuel task) ;;
            for_each rest (process_task fuel)) st').
Proof.
  intros Hen Heven Hsrc Hdst Hid Hpairs Hbefore.
  assert (advanced st0 st) as Hadv.
  { eapply for_each_advanced; [|exact Hbefore].
    intros x. apply process_pair_advanced. }
  pose proof (advanced_indices _ _ SourceSheetId Hadv) as Hi1.
  pose proof (advanced_indices _ _ DestinationSheetId Hadv) as Hi2.
  pose proof (advanced_indices _ _ TaskId Hadv) as Hi3. simpl in Hi1, Hi2, Hi3.
  rewrite <- Hi1 in Hsrc. rewrite <- Hi2 in Hdst. rewrite <- Hi3 in Hid.
  assert (∀ st', process_pair fuel task p st = (Ok tt, st') →
    for_each (task :: rest) (process_task fuel) st0
    = (_ <- for_each ps (process_pair fuel task) ;;
       for_each rest (process_task fuel)) st') as Hloop.
  { intros st' Hp. simpl. unfold bind at 1.
    rewrite (process_task_copies _ _ _ _ Hen Heven Hpairs).
    rewrite for_each_app, Hbefore, (for_each_cons_ok _ _ _ _ _ Hp).
    unfold bind. by destruct (for_each ps _ st') as [[[]|?] ?]. }
  split.
  - intros e st1 Hread message st'.
    assert (process_pair fuel task p st = (Ok tt, st')) as Hp.
    { rewrite (process_pair_run _ _ _ _ _ _ _ Hsrc Hdst Hid). by rewrite Hread. }
    apply execute_request_inv in Hread as (Hself & Hlog & _).
    split_and!; [done| |done|by apply Hloop].
    subst st'. simpl. by rewrite Hself.
  - intros r st1 e st2 Hread Hwrite message st'.
    assert (process_pair fuel task p st = (Ok tt, st')) as Hp.
    { rewrite (process_pair_run _ _ _ _ _ _ _ Hsrc Hdst Hid).
      by rewrite Hread, Hwrite. }
    apply execute_request_inv in Hread as (Hself1 & _ & _).
    apply execute_request_inv in Hwrite as (Hself2 & _ & _).
    split_and!; [done| |by apply Hloop].
    subst st'. simpl. by rewrite Hself2, Hself1.
Qed.

(** *** When every request succeeds *)

Lemma execute_request_succeeds fuel request (st : State) :
  always_succeeds →
  ∃ r w', execute_request fuel request st
          = (Ok r, mkState (self st) w' (log st ++ [Executed request (Success r)])).
Proof.
  intros Hok. destruct (Hok request (world st)) as (r & w' & Hex).
  exists r, w'. by rewrite execute_request_unfold, Hex.
Qed.

Lemma copy_pairs fuel task src dst id pairs :
  always_succeeds →
  ∀ st : State,
    getitem task (source_sheet_index (self st)) = Ok src →
    getitem task (destination_sheet_index (self st)) = Ok dst →
    getitem task (task_id_index (self st)) = Ok id →
    ∃ evs w',
      for_each pairs (process_pair fuel task) st
      = (Ok tt, mkState (self st) w' (log st ++ evs))
      ∧ copied src dst pairs evs.
Proof.
  intros Hok. induction pairs as [|p pairs IH]; intros st Hsrc Hdst Hid.
  - exists [], (world st). simpl. rewrite app_nil_r. destruct st.
    split; [done|constructor].
  - destruct (execute_request_succeeds fuel (read_request src p) st Hok)
      as (r & w1 & Hread).
    set (st1 := mkState (self st) w1
                  (log st ++ [Executed (read_request src p) (Success r)])) in *.
    destruct (execute_request_succeeds fuel (write_request dst p r) st1 Hok)
      as (a & w2 & Hwrite).
    set (st2 := mkState (self st1) w2
                  (log st1 ++ [Executed (write_request dst p r) (Success a)])) in *.
    destruct (IH st2 Hsrc Hdst Hid) as (evs & w' & Hrest & Hcopied).
    exists (Executed (read_request src p) (Success r)
            :: Executed (write_request dst p r) (Success a) :: evs), w'.
    split; [|by constructor].
    rewrite (for_each_cons_ok _ _ _ _ st2).
    + rewrite Hrest. simpl. by rewrite <- !app_assoc.
    + rewrite (process_pair_run _ _ _ _ _ _ _ Hsrc Hdst Hid).
      by rewrite Hread, Hwrite.
Qed.

Lemma copy_task fuel task (st : State) :
  always_succeeds →
  well_formed (self st) task →
  ∃ evs w',
    process_task fuel task st = (Ok tt, mkState (self st) w' (log st ++ evs))
    ∧ task_trace (self st) task evs.
Proof.
  intros Hok (Hen & Hge & Heven & [src Hsrc] & [dst Hdst] & [id Hid]).
  destruct (extract_even_row task Hge Heven) as (pairs & Hpairs & Hlen & Hnth).
  destruct (copy_pairs fuel task src dst id pairs Hok st Hsrc Hdst Hid)
    as (evs & w' & Hrun & Hcopied).
  exists evs, w'. rewrite (process_task_copies _ _ _ _ Hen Heven Hpairs).
  split; [done|]. exists src, dst, pairs. split_and!; [done..| |done|done].
  rewrite Hlen, Nat2Z.inj_div, Nat2Z.inj_sub by done. done.
Qed.

Lemma copy_tasks fuel ts :
  always_succeeds →
  ∀ st : State,
    Forall (well_formed (self st)) ts →
    ∃ evss w',
      for_each ts (process_task fuel) st
      = (Ok tt, mkState (self st) w' (log st ++ concat evss))
      ∧ Forall2 (task_trace (self st)) ts evss.
Proof.
  intros Hok. induction ts as [|task ts IH]; intros st Hwf.
  - exists [], (world st). simpl. rewrite app_nil_r. destruct st.
    split; [done|constructor].
  - apply Forall_cons in Hwf as [Hwf1 Hwf].
    destruct (copy_task fuel task st Hok Hwf1) as (evs & w1 & Hrun & Htrace).
    set (st1 := mkState (self st) w1 (log st ++ evs)) in *.
    destruct (IH st1 Hwf) as (evss & w' & Hrest & Htraces).
    exists (evs :: evss), w'. split; [|by constructor].
    rewrite (for_each_cons_ok _ _ _ _ st1 Hrun), Hrest. simpl.
    by rewrite <- app_assoc.
Qed.

(** C1, amended.  On a service where every request succeeds, take a row
    that is enabled, has its five leading cells and an even tail, and holds
    the ID, source-sheet and destination-sheet cells.  Processing it raises
    nothing, adds no Error Record, and makes exactly the calls of copying
    the row: [(L - 5) / 2] pairs in column order, the [k]-th one a read of
    the range at position [5 + 2k] from the row's source sheet with
    unformatted values, followed by a write of the dictionary just read,
    with its range set to the cell at position [6 + 2k], to that range of
    the row's destination sheet with raw input; the loop then goes on with
    the rows that follow.  When every row of the task list is such a row,
    the calls of the Task Processor are the copies of the rows, one row
    after the other in the order of the list. *)
Theorem enabled_tasks_copied fuel (st : State) :
  always_succeeds →
  (∀ task rest,
     well_formed (self st) task →
     ∃ evs w',
       process_task fuel task st
       = (Ok tt, mkState (self st) w' (log st ++ evs))
       ∧ task_trace (self st) task evs
       ∧ for_each (task :: rest) (process_task fuel) st
         = for_each rest (process_task fuel)
             (mkState (self st) w' (log st ++ evs)))
  ∧ (Forall (well_formed (self st)) (tasks (self st)) →
     ∃ evss w',
       process_tasks fuel st
       = (Ok tt, mkState (self st) w' (log st ++ concat evss))
       ∧ Forall2 (task_trace (self st)) (tasks (self st)) evss).
Proof.
  intros Hok. split.
  - intros task rest Hwf.
    destruct (copy_task fuel task st Hok Hwf) as (evs & w' & Hrun & Htrace).
    exists evs, w'. split_and!; [done..|]. by apply for_each_cons_ok.
  - intros Hwf. unfold process_tasks. run_monad. by apply copy_tasks.
Qed.

(** C10.  When the loaded task list holds a row whose length does not
    exceed the Enable column index, and the rows [before] it were processed
    without an exception, reading that row's Enable cell raises
    [IndexError]; nothing catches it, so [process_tasks] and [run] end with
    that exception in the very state the machine had when the row was
    reached: the rows after it are not processed and [handle_errors] is not
    run, so the Error Records accumulated so far stay unwritten. *)
Theorem short_row_aborts_run fuel (st st1 st2 : State) before row rest column :
  fetch_config_data fuel st = (Ok tt, st1) →
  tasks (self st1) = before ++ row :: rest →
  enable_index (self st1) = Some column →
  length row ≤ column →
  for_each before (process_task fuel) st1 = (Ok tt, st2) →
  process_task fuel row st2 = (Raise IndexError, st2)
  ∧ process_tasks fuel st1 = (Raise IndexError, st2)
  ∧ run fuel st = (Raise IndexError, st2).
Proof.
  intros Hfetch Htasks Hen Hshort Hbefore.
  assert (process_task fuel row st2 = (Raise IndexError, st2)) as Hrow.
  { pose proof (process_tasks_loop_advanced _ _ _ _ _ Hbefore) as Hadv.
    apply (advanced_indices _ _ Enable) in Hadv. simpl in Hadv.
    unfold process_task. run_monad. rewrite Hadv, Hen. simpl.
    by rewrite (lookup_ge_None_2 row column Hshort). }
  assert (process_tasks fuel st1 = (Raise IndexError, st2)) as Hloop.
  { unfold process_tasks. run_monad. rewrite Htasks, for_each_app, Hbefore.
    simpl. unfold bind. by rewrite Hrow. }
  split_and!; [done..|].
  unfold run, bind. by rewrite Hfetch, Hloop.
Qed.

End Processor.

(** ** Config Loader *)

Lemma enumerate_snoc {A} (l : list A) x :
  enumerate (l ++ [x]) = enumerate l ++ [(length l, x)].
Proof.
  unfold enumerate. rewrite length_app, seq_app. simpl.
  by rewrite zip_with_app by (by rewrite length_seq).
Qed.

Lemma resolve_header_snoc header x s :
  resolve_header (header ++ [x]) s
  = resolve_column (resolve_header header s) (length header, x).
Proof. unfold resolve_header. by rewrite enumerate_snoc, foldl_app. Qed.

Lemma resolve_column_index c s n v :
  index_of c (resolve_column s (n, v))
  = if decide (v = label c) then Some n else index_of c s.
Proof.
  unfold resolve_column.
  destruct c; simpl; repeat case_decide; subst; simpl; congruence.
Qed.

Lemma last_occurrence_snoc v (l : list cell) x i :
  last_occurrence v (l ++ [x]) i →
  (x = v ∧ i = length l) ∨ (x ≠ v ∧ last_occurrence v l i).
Proof.
  intros [Hi Hlast]. destruct (decide (x = v)) as [->|Hne].
  - left. split; [done|].
    destruct (decide (i = length l)) as [|Hil]; [done|]. exfalso.
    assert (i < length (l ++ [v])) by (by eapply lookup_lt_Some).
    rewrite length_app in *. simpl in *.
    apply (Hlast (length l)); [lia|]. apply list_lookup_middle. done.
  - right. split; [done|].
    assert (i < length l) as Hlt.
    { assert (i < length (l ++ [x])) by (by eapply lookup_lt_Some).
      rewrite length_app in *. simpl in *.
      destruct (decide (i = length l)) as [->|]; [|lia].
      rewrite list_lookup_middle in Hi by done. congruence. }
    split.
    + by rewrite lookup_app_l in Hi.
    + intros j Hj Hv. apply (Hlast j Hj).
      rewrite lookup_app_l; [done|]. by eapply lookup_lt_Some.
Qed.

(** C8.  After the scan of the header row, the index recorded for each of
    the four labels is the position of the label's last occurrence in the
    row; a label that does not occur leaves the field as it was ([None]
    after [__init__]). *)
Theorem header_last_match_wins (header : list cell) s c :
  (∀ i, last_occurrence (label c) header i →
        index_of c (resolve_header header s) = Some i)
  ∧ (label c ∉ header →
     index_of c (resolve_header header s) = index_of c s).
Proof.
  induction header as [|x header [IH1 IH2]] using rev_ind.
  - split; [|done]. by intros i [Hi _].
  - rewrite resolve_header_snoc, resolve_column_index. split.
    + intros i [[-> ->]|[Hne Hlast]]%last_occurrence_snoc.
      * by rewrite decide_True.
      * rewrite decide_False by done. by apply IH1.
    + intros Hnotin. rewrite decide_False.
      * apply IH2. intros Hin. apply Hnotin, elem_of_app. by left.
      * intros ->. apply Hnotin, elem_of_app. right.
        by apply list_elem_of_singleton.
Qed.

Lemma header_last_match_wins_witness :
  index_of TaskId
    (resolve_header [CStr "ID"; CStr "Enable"; CStr "ID"; CStr "Enable"]
       (init "cfg")) = Some 2
  ∧ index_of SourceSheetId
      (resolve_header [CStr "ID"; CStr "Enable"; CStr "ID"; CStr "Enable"]
         (init "cfg")) = None.
Proof.
  split.
  - apply (header_last_match_wins
             [CStr "ID"; CStr "Enable"; CStr "ID"; CStr "Enable"]
             (init "cfg") TaskId).
    split; [reflexivity|].
    intros [|[|[|[|[|j]]]]] Hj; simpl; first [lia | discriminate].
  - apply (header_last_match_wins
             [CStr "ID"; CStr "Enable"; CStr "ID"; CStr "Enable"]
             (init "cfg") SourceSheetId).
    simpl. intros Hin. repeat (apply elem_of_cons in Hin as [Hin|Hin]; [discriminate|]).
    by apply elem_of_nil in Hin.
Defined.

Section Loader.
Context `{Remote}.

Lemma load_config_run response (st : State) :
  load_config response st =
  match vr_values response with
  | None => (Raise (Exception "failed to fetch configuration data"), st)
  | Some [] => (Raise IndexError, st)
  | Some (header :: rows) =>
      (Ok tt, mkState (set_tasks (resolve_header header (self st)) rows)
                (world st) (log st))
  end.
Proof.
  unfold load_config. destruct (vr_values response) as [[|header rows]|]; done.
Qed.

(** C6, amended.  Given the response the executor fetched for the
    configuration range: the loader raises the configuration-fetch
    exception exactly when the response has no [values] entry; and when the
    entry holds at least one row, the loader returns normally and the task
    list is the fetched rows without row 0, from which the column indices
    were resolved. *)
Theorem config_loaded fuel (st st1 : State) response :
  execute_request fuel
    (ValuesGet (CStr (configuration_sheet_id (self st)))
       (CStr (configuration_range (self st))) "ROWS" None) st
  = (Ok response, st1) →
  ((fetch_config_data fuel st).1
   = Raise (Exception "failed to fetch configuration data")
   ↔ vr_values response = None)
  ∧ (∀ header rows,
       vr_values response = Some (header :: rows) →
       ∃ st', fetch_config_data fuel st = (Ok tt, st')
              ∧ tasks (self st') = rows
              ∧ (∀ c, index_of c (self st')
                      = index_of c (resolve_header header (self st)))
              ∧ world st' = world st1
              ∧ log st' = log st1).
Proof.
  intros Hfetch.
  assert (fetch_config_data fuel st = load_config response st1) as Hrun.
  { unfold fetch_config_data, bind, gets. simpl. by rewrite Hfetch. }
  rewrite Hrun, load_config_run.
  apply execute_request_inv in Hfetch as (Hself & _ & _). split.
  - destruct (vr_values response) as [[|header rows]|]; simpl; split; done.
  - intros header rows ->. eexists. split_and!; [done..| |done|done].
    intros c. simpl. rewrite Hself. by destruct c.
Qed.

End Loader.

(** ** Error Reporter *)

Section Reporter.
Context `{Remote}.

(** The write request of [handle_errors] for the given messages. *)
Lemma handle_errors_run fuel (st : State) :
  handle_errors fuel st =
  match errors (self st) with
  | [] => (Ok tt, st)
  | errs =>
      let error_range := CStr ("Errors!A1:A" +:+ pretty (length errs)) in
      (_ <- execute_request fuel
              (ValuesUpdate (CStr (configuration_sheet_id (self st)))
                 error_range "RAW"
                 {| vr_range := Some error_range;
                    vr_majorDimension := Some "ROWS";
                    vr_values := Some errs |}) ;;
       ret tt) st
  end.
Proof.
  unfold handle_errors, bind, gets, ret. simpl.
  destruct (errors (self st)) as [|row rows]; [done|].
  rewrite decide_True by (simpl; lia). done.
Qed.

(** C7.  After the Task Processor has run from a state without Error
    Records, the records are one single-column row per message, and a
    message added later goes into a later row.  With no message, the Error Reporter leaves the
    machine as it was: no call.  With [n > 0] messages it hands one request
    to the executor: an update of range [Errors!A1:A{n}] of the
    configuration document, raw input, whose values are those [n] rows.
    Whatever the executor raises is raised by the reporter; every remote
    call made concerns that one request; when the service accepts it at
    once, exactly one call is made. *)
Theorem errors_reported fuel (st0 st : State) :
  errors (self st0) = [] →
  process_tasks fuel st0 = (Ok tt, st) →
  ∃ msgs,
    errors (self st) = error_rows msgs
    ∧ (∀ message,
         errors (self (add_error message st).2) = error_rows (msgs ++ [message]))
    ∧ let n := length msgs in
      let error_range := CStr ("Errors!A1:A" +:+ pretty n) in
      let request :=
        ValuesUpdate (CStr (configuration_sheet_id (self st0))) error_range
          "RAW"
          {| vr_range := Some error_range;
             vr_majorDimension := Some "ROWS";
             vr_values := Some (error_rows msgs) |} in
      (n = 0 → handle_errors fuel st = (Ok tt, st))
      ∧ (0 < n →
         handle_errors fuel st
         = (_ <- execute_request fuel request ;; ret tt) st
         ∧ (∀ e st',
              execute_request fuel request st = (Raise e, st') →
              handle_errors fuel st = (Raise e, st'))
         ∧ (∀ r st',
              handle_errors fuel st = (r, st') →
              ∃ evs, log st' = log st ++ evs
                     ∧ Forall (event_of request) evs)
         ∧ (∀ a w',
              request_execute request (world st) = (Success a, w') →
              handle_errors fuel st
              = (Ok tt, mkState (self st) w'
                          (log st ++ [Executed request (Success a)])))).
Proof.
  intros Hnone Hrun.
  assert (advanced st0 st) as Hadv.
  { unfold process_tasks, bind, gets in Hrun. simpl in Hrun.
    by eapply process_tasks_loop_advanced. }
  pose proof (advanced_config _ _ Hadv) as Hcfg.
  destruct Hadv as [msgs Hmsgs]. exists msgs.
  assert (errors (self st) = error_rows msgs) as Herrs.
  { rewrite Hmsgs. simpl. by rewrite Hnone. }
  split; [done|]. split.
  { intros message. simpl. rewrite Herrs. unfold error_rows.
    by rewrite fmap_app. }
  intros n error_range request.
  assert (length (errors (self st)) = n) as Hlen.
  { rewrite Herrs. unfold error_rows. by rewrite length_fmap. }
  split.
  - intros Hn. rewrite handle_errors_run.
    destruct (errors (self st)); [done|simpl in *; lia].
  - intros Hn.
    assert (handle_errors fuel st
            = (_ <- execute_request fuel request ;; ret tt) st) as Hreport.
    { rewrite handle_errors_run. subst request error_range. rewrite <- Hcfg.
      destruct (errors (self st)) as [|row rows] eqn:Hrows; [simpl in *; lia|].
      cbv beta iota zeta. by rewrite <- Herrs, Hlen. }
    split_and!; [done|..].
    + intros e st' Hex. rewrite Hreport. unfold bind. by rewrite Hex.
    + intros r st'. rewrite Hreport. unfold bind, ret.
      destruct (execute_request fuel request st) as [[a|e] st1] eqn:Hex;
        intros [= <- <-]; by apply execute_request_inv in Hex as (_ & ? & _).
    + intros a w' Hex. rewrite Hreport. unfold bind, ret.
      by rewrite execute_request_unfold, Hex.
Qed.

End Reporter.

(** ** The properties at work on concrete runs *)

Lemma copied_length src dst pairs evs :
  copied src dst pairs evs → length evs = 2 * length pairs.
Proof. induction 1; simpl; lia. Qed.

(** The first scenario of the specification: one enabled row with one pair
    gives one read of [A1:A2] from [srcSheet] and one write of what was read
    to [B1:B2] on [dstSheet]; no Error Record, so no report. *)
Example scenario_one_pair :
  run 0 (scripted (init "cfg")
           [Success (config_values [task_T1]); Success some_values;
            Success acknowledged])
  = (Ok tt,
     @mkState script (configured [task_T1]) []
       [Executed
          (ValuesGet (CStr "cfg") (CStr "Configuration!A1:Z50") "ROWS" None)
          (Success (config_values [task_T1]));
        Executed
          (ValuesGet (CStr "srcSheet") (CStr "A1:A2") "ROWS"
             (Some "UNFORMATTED_VALUE"))
          (Success some_values);
        Executed
          (ValuesUpdate (CStr "dstSheet") (CStr "B1:B2") "RAW"
             {| vr_range := Some (CStr "B1:B2");
                vr_majorDimension := Some "ROWS";
                vr_values := Some [[CNum 1]; [CBool true]] |})
          (Success acknowledged)]).
Proof. reflexivity. Qed.

(** The second scenario: the same row with Enable set to ["FALSE"] gives
    no call beyond the configuration fetch and no Error Record. *)
Example scenario_disabled :
  run 0 (scripted (init "cfg")
           [Success (config_values
                       [[CStr "T1"; CStr "srcSheet"; CStr "dstSheet";
                         CStr "FALSE"; CStr ""; CStr "A1:A2"; CStr "B1:B2"]])])
  = (Ok tt,
     @mkState script
       (configured [[CStr "T1"; CStr "srcSheet"; CStr "dstSheet";
                     CStr "FALSE"; CStr ""; CStr "A1:A2"; CStr "B1:B2"]])
       []
       [Executed config_request
          (Success (config_values
                      [[CStr "T1"; CStr "srcSheet"; CStr "dstSheet";
                        CStr "FALSE"; CStr ""; CStr "A1:A2"; CStr "B1:B2"]]))]).
Proof. reflexivity. Qed.

(** The third scenario: an enabled row with an odd tail gives one Error
    Record naming the row's ID and no remote call for the row; the record is
    then written to the error sheet. *)
Example scenario_odd_tail :
  run 0 (scripted (init "cfg")
           [Success (config_values [task_enabled_odd]); Success acknowledged])
  = (Ok tt,
     @mkState script
       (set_errors (configured [task_enabled_odd])
          [[CStr "Task T4 is not configured properly. Check source and destination pair."]])
       []
       [Executed
          (ValuesGet (CStr "cfg") (CStr "Configuration!A1:Z50") "ROWS" None)
          (Success (config_values [task_enabled_odd]));
        Executed
          (ValuesUpdate (CStr "cfg") (CStr "Errors!A1:A1") "RAW"
             {| vr_range := Some (CStr "Errors!A1:A1");
                vr_majorDimension := Some "ROWS";
                vr_values :=
                  Some [[CStr "Task T4 is not configured properly. Check source and destination pair."]] |})
          (Success acknowledged)]).
Proof. reflexivity. Qed.

(** A cell holding the boolean [True] is not the string ["TRUE"]. *)
Example boolean_cell_is_not_enabled :
  process_task 0 [CStr "T6"; CStr "s"; CStr "d"; CBool true; CStr ""]
    (scripted (configured []) [])
  = (Ok tt, scripted (configured []) []).
Proof. reflexivity. Qed.

Lemma execute_request_contract_witness :
  execute_request 5 read_AB
    (scripted (configured [])
       [Failure quota_exceeded; Failure quota_exceeded; Success some_values])
  = (Ok some_values,
     @mkState script (configured []) []
       [Executed read_AB (Failure quota_exceeded); Slept 100;
        Executed read_AB (Failure quota_exceeded); Slept 100;
        Executed read_AB (Success some_values)])
  ∧ (execute_request 1 read_AB
       (scripted (configured [])
          [Failure quota_exceeded; Failure quota_exceeded;
           Success some_values])).1
    = Raise RecursionError.
Proof.
  assert (answered (H := script) read_AB 2
            [Failure quota_exceeded; Failure quota_exceeded;
             Success some_values]
            [Executed read_AB (Failure quota_exceeded); Slept 100;
             Executed read_AB (Failure quota_exceeded); Slept 100;
             Executed read_AB (Success some_values)]
            (Success some_values) []) as Hans.
  { eapply (answered_later (H := script)); [reflexivity..|].
    eapply (answered_later (H := script)); [reflexivity..|].
    eapply (answered_now (H := script)); reflexivity. }
  split.
  - refine (proj1 (execute_request_contract (H := script) read_AB 2
      (scripted (configured [])
         [Failure quota_exceeded; Failure quota_exceeded; Success some_values])
      _ (Success some_values) [] 5 Hans) _). lia.
  - refine (proj1 (proj2 (execute_request_contract (H := script) read_AB 2
      (scripted (configured [])
         [Failure quota_exceeded; Failure quota_exceeded; Success some_values])
      _ (Success some_values) [] 1 Hans)) _). lia.
Defined.

Lemma disabled_task_skipped_witness :
  process_task 0 task_disabled_odd (scripted (configured []) [])
  = (Ok tt, scripted (configured []) []).
Proof.
  refine (proj1 (disabled_task_skipped (H := script) 0 task_disabled_odd []
    (scripted (configured []) []) (CStr "FALSE") _ _)).
  - reflexivity.
  - discriminate.
Defined.

Lemma odd_tail_recorded_witness :
  errors (self (process_task 0 task_enabled_odd (scripted (configured []) [])).2)
  = [[CStr "Task T4 is not configured properly. Check source and destination pair."]].
Proof.
  destruct (odd_tail_recorded (H := script) 0 task_enabled_odd []
    (scripted (configured []) []) (CStr "T4")) as (Hrun & Herrs & _).
  - reflexivity.
  - discriminate.
  - reflexivity.
  - rewrite Hrun. exact Herrs.
Defined.

(** C3 as stated fails on a disabled row with an odd tail: the row is
    skipped before its shape is looked at, so no Error Record is added. *)
Lemma odd_tail_disabled_counterexample :
  let st := scripted (configured []) [] in
  ((Z.of_nat (length task_disabled_odd) - 5) `mod` 2 ≠ 0)%Z
  ∧ process_task 0 task_disabled_odd st = (Ok tt, st)
  ∧ errors (self (process_task 0 task_disabled_odd st).2) = [].
Proof. split_and!; [discriminate|reflexivity..]. Qed.

(** An enabled row with an odd tail that stops before the ID column: the
    message cannot be built, [IndexError] is raised instead. *)
Example odd_tail_without_id :
  process_task 0 task_odd_without_id
    (scripted (resolve_header enable_first_header (init "cfg")) [])
  = (Raise IndexError,
     scripted (resolve_header enable_first_header (init "cfg")) []).
Proof. reflexivity. Qed.

Lemma pair_failure_is_local_witness :
  process_pair 0 task_T2 pair_AB
    (scripted (configured [])
       [Failure bad_range; Success some_values; Success acknowledged])
  = (Ok tt,
     with_error
       (@mkState script (configured [])
          [Success some_values; Success acknowledged]
          [Executed read_AB (Failure bad_range)])
       "Failed to fetch data for task T2: Unable to parse range").
Proof.
  destruct (pair_failure_is_local (H := script) 0 task_T2 [] pair_AB [pair_CD] []
    (scripted (configured [])
       [Failure bad_range; Success some_values; Success acknowledged])
    (scripted (configured [])
       [Failure bad_range; Success some_values; Success acknowledged])
    (CStr "srcSheet") (CStr "dstSheet") (CStr "T2"))
    as [Hread _]; [reflexivity..|].
  exact (proj1 (Hread bad_range
    (@mkState script (configured [])
       [Success some_values; Success acknowledged]
       [Executed read_AB (Failure bad_range)]) eq_refl)).
Defined.

Lemma enabled_tasks_copied_witness :
  ∃ evss w',
    process_tasks 0 (on_steady (configured [task_T1; task_T2]))
    = (Ok tt, @mkState steady (configured [task_T1; task_T2]) w' (concat evss))
    ∧ Forall2 (task_trace (configured [task_T1; task_T2]))
        [task_T1; task_T2] evss.
Proof.
  apply (enabled_tasks_copied (H := steady) 0
           (on_steady (configured [task_T1; task_T2]))).
  - intros request w. eexists _, _. reflexivity.
  - simpl. apply List.Forall_cons; [|apply List.Forall_cons; [|apply List.Forall_nil]];
      (split_and!; [reflexivity | simpl; lia | reflexivity | by eexists..]).
Defined.

(** C1 as stated fails when a read fails: the row is enabled and its tail
    is even, yet the only call made for its one pair is the read; there is
    no write, so the calls are not one read-and-write pair. *)
Lemma read_failure_counterexample :
  let st := scripted (configured [task_T1]) [Failure bad_range] in
  getitem task_T1 (enable_index (self st)) = Ok (CStr "TRUE")
  ∧ ((Z.of_nat (length task_T1) - 5) `mod` 2 = 0)%Z
  ∧ (process_tasks 0 st).1 = Ok tt
  ∧ log (process_tasks 0 st).2 = [Executed read_AB (Failure bad_range)]
  ∧ ¬ task_trace (self st) task_T1 (log (process_tasks 0 st).2).
Proof.
  split_and!; [reflexivity..|].
  intros (src & dst & pairs & _ & _ & Hlen & _ & Hcopied).
  apply copied_length in Hcopied.
  assert (length (log (process_tasks 0
            (scripted (configured [task_T1]) [Failure bad_range])).2) = 1)
    as Hone by reflexivity.
  assert ((Z.of_nat (length task_T1) - 5) `div` 2 = 1)%Z as Htwo by reflexivity.
  lia.
Qed.

(** An enabled row of three cells passes the parity test, since
    [(3 - 5) % 2 = 0], and has no pair at all, while [(3 - 5) // 2 = -1]. *)
Example three_cells_no_pair :
  let st := scripted (resolve_header enable_first_header (init "cfg")) [] in
  getitem task_three_cells (enable_index (self st)) = Ok (CStr "TRUE")
  ∧ ((Z.of_nat (length task_three_cells) - 5) `mod` 2 = 0)%Z
  ∧ ((Z.of_nat (length task_three_cells) - 5) `div` 2 = -1)%Z
  ∧ process_task 0 task_three_cells st = (Ok tt, st)
  ∧ ∀ evs, ¬ task_trace (self st) task_three_cells evs.
Proof.
  split_and!; [reflexivity..|].
  intros evs (src & dst & pairs & _ & _ & Hlen & _).
  assert ((Z.of_nat (length task_three_cells) - 5) `div` 2 = -1)%Z as Hneg
    by reflexivity.
  lia.
Qed.

(** An enabled row with an even tail whose source-sheet column lies beyond
    its end: building the read request raises [IndexError]. *)
Example missing_sheet_cell_aborts :
  let st := scripted (resolve_header far_header (init "cfg")) [] in
  getitem task_without_sheets (enable_index (self st)) = Ok (CStr "TRUE")
  ∧ ((Z.of_nat (length task_without_sheets) - 5) `mod` 2 = 0)%Z
  ∧ process_task 0 task_without_sheets st = (Raise IndexError, st).
Proof. split_and!; reflexivity. Qed.

Lemma short_row_aborts_run_witness :
  run 0 (scripted (init "cfg")
           [Success (config_values [task_disabled_odd; []; task_T1])])
  = (Raise IndexError,
     @mkState script (configured [task_disabled_odd; []; task_T1]) []
       [Executed config_request
          (Success (config_values [task_disabled_odd; []; task_T1]))]).
Proof.
  refine (proj2 (proj2 (short_row_aborts_run (H := script) 0
    (scripted (init "cfg")
       [Success (config_values [task_disabled_odd; []; task_T1])])
    (@mkState script (configured [task_disabled_odd; []; task_T1]) []
       [Executed config_request
          (Success (config_values [task_disabled_odd; []; task_T1]))])
    _ [task_disabled_odd] [] [task_T1] 3 _ _ _ _ _)));
    [reflexivity | reflexivity | reflexivity | simpl; lia | reflexivity].
Defined.

Lemma config_loaded_witness :
  ∃ st',
    fetch_config_data 0
      (scripted (init "cfg") [Success (config_values [task_T1; task_T2])])
    = (Ok tt, st')
    ∧ tasks (self st') = [task_T1; task_T2].
Proof.
  destruct (config_loaded (H := script) 0
    (scripted (init "cfg") [Success (config_values [task_T1; task_T2])])
    (@mkState script (init "cfg") []
       [Executed config_request (Success (config_values [task_T1; task_T2]))])
    (config_values [task_T1; task_T2]) eq_refl) as [_ Hrows].
  destruct (Hrows standard_header [task_T1; task_T2] eq_refl)
    as (st' & Hrun & Htasks & _).
  exists st'. split; [exact Hrun | exact Htasks].
Defined.

(** C6 as stated fails on a response whose [values] entry is an empty
    list: the entry is there, and the loader raises [IndexError] at the
    header access, neither the configuration-fetch exception nor a normal
    return with a task list. *)
Lemma empty_values_counterexample :
  let st := scripted (init "cfg") [Success empty_values] in
  (execute_request 0 config_request st).1 = Ok empty_values
  ∧ vr_values empty_values = Some []
  ∧ (fetch_config_data 0 st).1 = Raise IndexError
  ∧ (fetch_config_data 0 st).1
    ≠ Raise (Exception "failed to fetch configuration data")
  ∧ (fetch_config_data 0 st).1 ≠ Ok tt.
Proof. split_and!; [reflexivity..|discriminate|discriminate]. Qed.

Example no_values_is_fatal :
  (fetch_config_data 0 (scripted (init "cfg") [Success no_values])).1
  = Raise (Exception "failed to fetch configuration data").
Proof. reflexivity. Qed.

Lemma errors_reported_witness :
  ∃ msgs,
    errors (self (process_tasks 0
                    (scripted (configured [task_enabled_odd; task_T1])
                       [Failure bad_range])).2)
    = error_rows msgs.
Proof.
  destruct (errors_reported (H := script) 0
    (scripted (configured [task_enabled_odd; task_T1]) [Failure bad_range])
    (process_tasks 0
       (scripted (configured [task_enabled_odd; task_T1])
          [Failure bad_range])).2
    eq_refl eq_refl) as (msgs & Herrs & _).
  exists msgs. exact Herrs.
Defined.

(** * Further properties of the program *)

(** ** Range Pair Extractor: edges *)

Lemma pairs_loop_app task idxs1 idxs2 acc :
  pairs_loop task (idxs1 ++ idxs2) acc =
  match pairs_loop task idxs1 acc with
  | Ok pairs => pairs_loop task idxs2 pairs
  | Raise e => Raise e
  end.
Proof.
  revert acc. induction idxs1 as [|i idxs1 IH]; intros acc; simpl; [done|].
  destruct (unpack2 (take 2 (drop i task))) as [[s d]|e]; [apply IH|done..].
Qed.

Lemma take2_drop_last (l : list cell) i :
  S i = length l → ∃ x, take 2 (drop i l) = [x].
Proof.
  revert i. induction l as [|a l IH]; intros i Hi; simpl in *; [lia|].
  destruct i as [|i].
  - destruct l; simpl in *; [by exists a|lia].
  - apply IH. lia.
Qed.

Lemma range_5_odd (n m : nat) :
  n = 6 + 2 * m → range 5 n 2 = ((λ k, 5 + k * 2) <$> seq 0 m) ++ [5 + m * 2].
Proof.
  intros ->. unfold range.
  replace (6 + 2 * m - 5 + (2 - 1)) with ((S m) * 2) by lia.
  rewrite Nat.div_mul by lia.
  replace (S m) with (m + 1) by lia. by rewrite seq_app, fmap_app.
Qed.

Lemma range_5_short (n : nat) : n ≤ 5 → range 5 n 2 = [].
Proof.
  intros Hn. unfold range. replace (n - 5 + (2 - 1)) with 1 by lia. done.
Qed.

Lemma extractor_short (task : list cell) :
  length task ≤ 5 → get_source_destination_range_pairs task = Ok [].
Proof.
  intros Hshort. unfold get_source_destination_range_pairs.
  by rewrite range_5_short.
Qed.

Lemma extractor_odd (task : list cell) :
  5 < length task → Nat.Odd (length task - 5) →
  get_source_destination_range_pairs task = Raise ValueError.
Proof.
  intros Hlong [m Hm]. unfold get_source_destination_range_pairs.
  rewrite (range_5_odd _ m) by lia. rewrite pairs_loop_app.
  destruct (pairs_loop_spec task m 0 []) as (ps & -> & _); [lia|].
  destruct (take2_drop_last task (5 + m * 2)) as [x Hx]; [lia|].
  cbn [pairs_loop]. by rewrite Hx.
Qed.

(** X1.  A row of at most five cells has no pair: the extractor returns
    the empty list.  A longer row whose tail has an odd number of cells
    makes the extractor raise [ValueError], at the unpacking of the last,
    single cell into two names. *)
Theorem extractor_edges (task : list cell) :
  (length task ≤ 5 → get_source_destination_range_pairs task = Ok [])
  ∧ (5 < length task → Nat.Odd (length task - 5) →
     get_source_destination_range_pairs task = Raise ValueError).
Proof. split; [apply extractor_short | apply extractor_odd]. Qed.

Lemma extractor_edges_witness :
  get_source_destination_range_pairs [CStr "T1"; CStr "s"; CStr "d"] = Ok []
  ∧ get_source_destination_range_pairs task_enabled_odd = Raise ValueError.
Proof.
  split.
  - apply (proj1 (extractor_edges [CStr "T1"; CStr "s"; CStr "d"])). simpl. lia.
  - apply (proj2 (extractor_edges task_enabled_odd)); [simpl; lia|].
    exists 0. reflexivity.
Defined.

Lemma pair_cells_cons p ps :
  pair_cells (p :: ps) = source_range p :: destination_range p :: pair_cells ps.
Proof. reflexivity. Qed.

Lemma pairs_loop_cells (task : list cell) n : ∀ a acc,
  5 + 2 * (a + n) ≤ length task →
  ∃ ps, pairs_loop task ((λ k, 5 + k * 2) <$> seq a n) acc = Ok (acc ++ ps)
        ∧ pair_cells ps = take (2 * n) (drop (5 + 2 * a) task).
Proof.
  induction n as [|n IH]; intros a acc Hlen; cbn [seq].
  - exists []. rewrite app_nil_r. done.
  - destruct (take2_drop task (5 + a * 2)) as (x & y & Hx & Hy & Htk); [lia|].
    rewrite fmap_cons. cbn [pairs_loop]. rewrite Htk. cbn [unpack2].
    destruct (IH (S a) (acc ++ [mkRangePair x y])) as (ps & -> & Hps); [lia|].
    exists (mkRangePair x y :: ps). rewrite <- app_assoc. split; [done|].
    rewrite pair_cells_cons, Hps. cbn [source_range destination_range].
    replace (2 * S n) with (2 + 2 * n) by lia.
    rewrite <- (take_take_drop (drop (5 + 2 * a) task) 2 (2 * n)).
    rewrite drop_drop.
    replace (5 + 2 * a) with (5 + a * 2) by lia. rewrite Htk.
    replace (5 + 2 * S a) with (5 + a * 2 + 2) by lia. done.
Qed.

(** X2.  Whenever the extractor returns, the pairs it returns are the tail
    of the row cut in twos: laying their cells out again, source before
    destination, gives back the row without its five leading cells. *)
Theorem pairs_cover_tail (task : list cell) pairs :
  get_source_destination_range_pairs task = Ok pairs →
  pair_cells pairs = drop 5 task.
Proof.
  intros Hpairs. destruct (decide (length task ≤ 5)) as [Hshort|Hlong].
  - rewrite (extractor_short task Hshort) in Hpairs.
    injection Hpairs as <-. by rewrite drop_ge.
  - destruct (Nat.Even_or_Odd (length task - 5)) as [[m Hm]|Hodd].
    + unfold get_source_destination_range_pairs in Hpairs.
      rewrite (range_5_even _ m) in Hpairs by lia.
      destruct (pairs_loop_cells task m 0 []) as (ps & Hps & Hcells); [lia|].
      rewrite Hps in Hpairs. injection Hpairs as <-.
      rewrite Hcells. apply take_ge. rewrite length_drop. lia.
    + rewrite extractor_odd in Hpairs by (done || lia).
      discriminate.
Qed.

Lemma pairs_cover_tail_witness :
  pair_cells [pair_AB; pair_CD] = drop 5 task_T2.
Proof. apply (pairs_cover_tail task_T2 [pair_AB; pair_CD]). reflexivity. Defined.

(** ** Quota-Aware Request Executor: footprint *)

Section ExecutorFootprint.
Context `{Remote}.

(** The events of a call of the executor and the result they lead to. *)
Lemma execute_request_attempt fuel request : ∀ (st : State) res st',
  execute_request fuel request st = (res, st') →
  ∃ evs, log st' = log st ++ evs ∧ attempt request evs res.
Proof.
  induction fuel as [|fuel IH]; intros st res st';
    rewrite execute_request_unfold;
    destruct (request_execute request (world st)) as [[resp|e|name] w]; simpl.
  - intros [= <- <-]. eexists. split; [done|].
    by apply (attempt_final request (Success resp)).
  - destruct (decide (status e = "429")) as [He|He]; intros [= <- <-]; simpl.
    + exists [Executed request (Failure e); Slept 100].
      rewrite <- app_assoc. split; [done|]. by apply attempt_overflow.
    + eexists. split; [done|].
      apply (attempt_final request (Failure e)). simpl.
      by apply bool_decide_eq_false.
  - intros [= <- <-]. eexists. split; [done|].
    by apply (attempt_final request (Dropped name)).
  - intros [= <- <-]. eexists. split; [done|].
    by apply (attempt_final request (Success resp)).
  - destruct (decide (status e = "429")) as [He|He].
    + intros Hrec. apply IH in Hrec as (evs & Hl & Hevs). simpl in Hl.
      exists (Executed request (Failure e) :: Slept 100 :: evs).
      rewrite Hl, <- !app_assoc. split; [done|]. by apply attempt_again.
    + intros [= <- <-]. eexists. split; [done|].
      apply (attempt_final request (Failure e)). simpl.
      by apply bool_decide_eq_false.
  - intros [= <- <-]. eexists. split; [done|].
    by apply (attempt_final request (Dropped name)).
Qed.


(** What the executor can raise. *)
Lemma attempt_raises request evs e :
  attempt request evs (Raise e) →
  (∃ h, e = HttpError h ∧ status h ≠ "429") ∨ uncaught e.
Proof.
  intros Hatt. remember (Raise e) as res eqn:Hres.
  induction Hatt as [o Ho| |e' evs res' He' _ IH].
  - destruct o as [r|h|name]; simpl in *; [done| |].
    + injection Hres as <-. left. exists h. split; [done|].
      by apply bool_decide_eq_false in Ho.
    + injection Hres as <-. right. right. by exists name.
  - injection Hres as <-. right. by left.
  - by apply IH.
Qed.

Lemma execute_request_raises fuel request (st : State) e st' :
  execute_request fuel request st = (Raise e, st') →
  (∃ h, e = HttpError h ∧ status h ≠ "429") ∨ uncaught e.
Proof.
  intros Hrun. apply execute_request_attempt in Hrun as (evs & _ & Hatt).
  by eapply attempt_raises.
Qed.


(** X4.  The logging variant of the executor lets no [HttpError] out.
    It returns the response when the executor returns one.  When the
    executor raises an [HttpError] it adds one Error Record, made of the
    caller's message, a colon and the text of the error, and returns
    [None].  The exceptions its handler does not catch leave it as they
    are and add no record: [RecursionError], and any other exception raised
    by [request.execute()]. *)
Theorem logging_executor_outcomes fuel request message (st : State) res st' :
  execute_request_or_log_error fuel request message st = (res, st') →
  (∃ r, res = Ok (Some r) ∧ execute_request fuel request st = (Ok r, st'))
  ∨ (∃ h st1,
       res = Ok None
       ∧ execute_request fuel request st = (Raise (HttpError h), st1)
       ∧ status h ≠ "429"
       ∧ st' = with_error st1 (message +:+ ": " +:+ text h)
       ∧ errors (self st')
         = errors (self st) ++ [[CStr (message +:+ ": " +:+ text h)]])
  ∨ (∃ e, res = Raise e ∧ uncaught e
          ∧ execute_request fuel request st = (Raise e, st')
          ∧ errors (self st') = errors (self st)).
Proof.
  rewrite execute_request_or_log_error_run.
  destruct (execute_request fuel request st) as [[r|e] st1] eqn:Hrun.
  - intros [= <- <-]. left. eauto.
  - pose proof (execute_request_inv _ _ _ _ _ Hrun) as (Hself & _ & _).
    destruct (execute_request_raises _ _ _ _ _ Hrun)
      as [(h & -> & Hh)|Hunc].
    + intros [= <- <-]. right. left. exists h, st1.
      split_and!; [done..|]. simpl. by rewrite Hself.
    + assert (∀ h, e ≠ HttpError h) as Hne.
      { intros h ->. destruct Hunc as [|[name ?]]; done. }
      destruct e; try (by destruct (Hne e)); intros [= <- <-];
        right; right; eexists; (split_and!; [done..|by rewrite Hself]).
Qed.

End ExecutorFootprint.


Lemma logging_executor_outcomes_witness :
  (execute_request_or_log_error 0 read_AB "Failed to fetch data for task T1"
     (scripted (configured []) [Failure bad_range])).1 = Ok None
  ∧ (execute_request_or_log_error 0 read_AB "Failed to fetch data for task T1"
       (scripted (configured []) [Dropped "socket.timeout"])).1
    = Raise (OtherError "socket.timeout").
Proof.
  split.
  - destruct (logging_executor_outcomes (H := script) 0 read_AB
      "Failed to fetch data for task T1"
      (scripted (configured []) [Failure bad_range]) _ _ eq_refl)
      as [(r & Hres & _)|[(h & st1 & Hres & _)|(e & Hres & _)]];
      [discriminate Hres | exact Hres | discriminate Hres].
  - destruct (logging_executor_outcomes (H := script) 0 read_AB
      "Failed to fetch data for task T1"
      (scripted (configured []) [Dropped "socket.timeout"]) _ _ eq_refl)
      as [(r & Hres & _)|[(h & st1 & Hres & _)|(e & Hres & _)]];
      [discriminate Hres | discriminate Hres | reflexivity].
Defined.

(** ** Task Processor: what can and cannot happen *)

Section ProcessorBounds.
Context `{Remote}.

Ltac run_monad :=
  unfold bind, gets, lift, ret, modify, raise, add_error; simpl.

Lemma getitem_column_error task c s e :
  getitem task (index_of c s) = Raise e → column_error s e.
Proof.
  unfold getitem. destruct (index_of c s) as [n|] eqn:Hc.
  - destruct (task !! n); intros [= <-]. by left.
  - intros [= <-]. right. eauto.
Qed.

Lemma column_error_advanced (st st' : State) e :
  advanced st st' → column_error (self st') e → column_error (self st) e.
Proof.
  intros Hadv [->|[-> [c Hc]]]; [by left|right]. split; [done|].
  exists c. by rewrite <- (advanced_indices _ _ c Hadv).
Qed.

(** The logging executor raises only what its handler does not catch. *)
Lemma logging_executor_raises fuel request message (st : State) e st' :
  execute_request_or_log_error fuel request message st = (Raise e, st') →
  uncaught e.
Proof.
  rewrite execute_request_or_log_error_run.
  destruct (execute_request fuel request st) as [[r|e'] st1] eqn:Hrun; [done|].
  destruct (execute_request_raises _ _ _ _ _ Hrun) as [(h & -> & _)|Hunc];
    [done|].
  destruct e'; try done; by intros [= <- <-].
Qed.

Lemma process_pair_raises fuel task p (st : State) e st' :
  process_pair fuel task p st = (Raise e, st') →
  column_error (self st) e ∨ uncaught e.
Proof.
  unfold process_pair. run_monad.
  destruct (getitem task (source_sheet_index (self st))) as [src|e1] eqn:Hsrc;
    [|intros [= <- <-]; left; by apply (getitem_column_error task SourceSheetId)].
  destruct (getitem task (task_id_index (self st))) as [id|e1] eqn:Hid;
    [|intros [= <- <-]; left; by apply (getitem_column_error task TaskId)].
  match goal with |- context [execute_request_or_log_error ?f ?q ?m st] =>
    destruct (execute_request_or_log_error f q m st) as [[[resp|]|e1] st1] eqn:Hread
  end; [|done|intros [= <- <-]; right; by eapply logging_executor_raises].
  apply execute_request_or_log_error_advanced in Hread as Hadv.
  destruct (getitem task (destination_sheet_index (self st1))) as [dst|e1] eqn:Hdst;
    [|intros [= <- <-]; left; eapply column_error_advanced; [done|];
      by apply (getitem_column_error task DestinationSheetId)].
  destruct (getitem task (task_id_index (self st1))) as [id'|e1] eqn:Hid';
    [|intros [= <- <-]; left; eapply column_error_advanced; [done|];
      by apply (getitem_column_error task TaskId)].
  match goal with |- context [execute_request_or_log_error ?f ?q ?m st1] =>
    destruct (execute_request_or_log_error f q m st1) as [[a|e1] st2] eqn:Hwrite
  end; [done|intros [= <- <-]; right; by eapply logging_executor_raises].
Qed.

Lemma for_each_raises {A} (body : A → M unit) (l : list A) :
  (∀ x st r st', body x st = (r, st') → advanced st st') →
  (∀ x st e st', body x st = (Raise e, st') →
                 column_error (self st) e ∨ uncaught e) →
  ∀ st e st', for_each l body st = (Raise e, st') →
              column_error (self st) e ∨ uncaught e.
Proof.
  intros Hadv Hbody. induction l as [|x l IH]; intros st e st'; simpl; [done|].
  unfold bind. destruct (body x st) as [[[]|e1] st1] eqn:Hx.
  - intros Hrest. apply IH in Hrest as [Hcol|Hunc]; [left|by right].
    apply Hadv in Hx. by eapply column_error_advanced.
  - intros [= <- <-]. by eapply Hbody.
Qed.

Lemma extractor_even_ok (task : list cell) :
  ((Z.of_nat (length task) - 5) `mod` 2 = 0)%Z →
  ∃ pairs, get_source_destination_range_pairs task = Ok pairs
           ∧ length pairs ≤ (length task - 5) / 2.
Proof.
  intros Heven. destruct (decide (5 ≤ length task)) as [Hge|Hlt].
  - destruct (extract_even_row task Hge Heven) as (pairs & Hp & Hl & _).
    exists pairs. split; [done|lia].
  - exists []. split; [apply extractor_short; lia|simpl; lia].
Qed.

Lemma process_task_raises fuel task (st : State) e st' :
  process_task fuel task st = (Raise e, st') →
  column_error (self st) e ∨ uncaught e.
Proof.
  unfold process_task. run_monad.
  destruct (getitem task (enable_index (self st))) as [en|e1] eqn:Hen;
    [|intros [= <- <-]; left; by apply (getitem_column_error task Enable)].
  destruct (decide (en ≠ CStr "TRUE")); [done|].
  destruct (decide _) as [Hodd|Heven].
  - destruct (getitem task (task_id_index (self st))) as [id|e1] eqn:Hid;
      [done|intros [= <- <-]; left; by apply (getitem_column_error task TaskId)].
  - destruct (extractor_even_ok task) as (pairs & -> & _).
    { destruct (decide ((Z.of_nat (length task) - 5) `mod` 2 = 0)%Z); done. }
    apply for_each_raises.
    + intros x. apply process_pair_advanced.
    + intros x. apply process_pair_raises.
Qed.

(** X5.  No [HttpError] ever leaves the Task Processor: every one is
    turned into an Error Record.  The exceptions [process_tasks] can end
    with are [IndexError], for a row that ends before a column it needs;
    [TypeError], which takes one of the four column indices never to have
    been set; and those the executors do not catch: [RecursionError], when
    rate-limit retries nest beyond the recursion limit, and any exception
    other than [HttpError] raised by [request.execute()]. *)
Theorem process_tasks_exceptions fuel (st : State) e st' :
  process_tasks fuel st = (Raise e, st') →
  (e = IndexError
   ∨ (e = TypeError ∧ ∃ c, index_of c (self st) = None)
   ∨ e = RecursionError
   ∨ ∃ name, e = OtherError name)
  ∧ ∀ h, e ≠ HttpError h.
Proof.
  unfold process_tasks. run_monad. intros Hrun.
  assert (column_error (self st) e ∨ uncaught e) as Hcases.
  { revert Hrun. apply for_each_raises.
    - intros x. apply process_task_advanced.
    - intros x. apply process_task_raises. }
  split.
  - destruct Hcases as [[->|[-> Hc]]|[->|[name ->]]]; eauto.
  - intros h ->. destruct Hcases as [[|[]]|[|[]]]; done.
Qed.

(** X6.  Whatever happens, the Task Processor keeps the four column
    indices, the task list and the configuration range and document of the
    replicator, and keeps every Error Record that was there: it only appends
    records, each a single-column row. *)
Theorem process_tasks_keeps_configuration fuel (st : State) res st' :
  process_tasks fuel st = (res, st') →
  (∀ c, index_of c (self st') = index_of c (self st))
  ∧ tasks (self st') = tasks (self st)
  ∧ configuration_range (self st') = configuration_range (self st)
  ∧ configuration_sheet_id (self st') = configuration_sheet_id (self st)
  ∧ ∃ msgs, errors (self st') = errors (self st) ++ error_rows msgs.
Proof.
  unfold process_tasks. run_monad. intros Hrun.
  apply process_tasks_loop_advanced in Hrun as [msgs Hmsgs].
  split_and!;
    [intros c; rewrite Hmsgs; by destruct c | by rewrite Hmsgs..
    | exists msgs; by rewrite Hmsgs].
Qed.

(** X7.  An enabled row of fewer than five cells whose length is odd (one
    or three cells) passes the parity test, because [(L - 5) % 2] is [0]
    for a negative even number, and has no pair: it is dropped without a
    remote call and without an Error Record. *)
Theorem short_odd_row_silently_dropped fuel task (st : State) :
  getitem task (enable_index (self st)) = Ok (CStr "TRUE") →
  length task < 5 →
  ((Z.of_nat (length task) - 5) `mod` 2 = 0)%Z →
  process_task fuel task st = (Ok tt, st).
Proof.
  intros Hen Hshort Heven.
  rewrite (process_task_copies _ _ _ [] Hen Heven); [done|].
  apply extractor_short. lia.
Qed.

End ProcessorBounds.

Lemma process_tasks_exceptions_witness :
  (process_tasks 0 (scripted (configured [[]; task_T1]) [])).1
  = Raise IndexError
  ∧ (process_tasks 1
       (scripted (configured [task_T1])
          [Failure quota_exceeded; Failure quota_exceeded])).1
    = Raise RecursionError.
Proof.
  split.
  - destruct (process_tasks_exceptions (H := script) 0
      (scripted (configured [[]; task_T1]) []) IndexError _ eq_refl)
      as [[_|[[Hty _]|[Hrec|[name Hoth]]]] _];
      [reflexivity|discriminate Hty|discriminate Hrec|discriminate Hoth].
  - destruct (process_tasks_exceptions (H := script) 1
      (scripted (configured [task_T1])
         [Failure quota_exceeded; Failure quota_exceeded])
      RecursionError _ eq_refl)
      as [[Hidx|[[Hty _]|[_|[name Hoth]]]] _];
      [discriminate Hidx|discriminate Hty|reflexivity|discriminate Hoth].
Defined.

Lemma process_tasks_keeps_configuration_witness :
  tasks (self (process_tasks 0
                 (scripted (configured [task_enabled_odd; task_T1])
                    [Failure bad_range])).2)
  = [task_enabled_odd; task_T1].
Proof.
  destruct (process_tasks_keeps_configuration (H := script) 0
    (scripted (configured [task_enabled_odd; task_T1]) [Failure bad_range])
    _ _ eq_refl) as (_ & Htasks & _).
  exact Htasks.
Defined.

Lemma short_odd_row_silently_dropped_witness :
  process_task 0 task_three_cells
    (scripted (resolve_header enable_first_header (init "cfg")) [])
  = (Ok tt, scripted (resolve_header enable_first_header (init "cfg")) []).
Proof.
  apply (short_odd_row_silently_dropped (H := script) 0 task_three_cells
    (scripted (resolve_header enable_first_header (init "cfg")) []));
    [reflexivity | simpl; lia | reflexivity].
Defined.

(** ** Task Processor: Error Records and calls of one pair *)

Section PairFootprint.
Context `{Remote}.

Ltac run_monad :=
  unfold bind, gets, lift, ret, modify, raise, add_error; simpl.

Lemma advanced_by_self n (st st' : State) :
  self st' = self st → advanced_by n st st'.
Proof.
  intros Hs. exists []. split; [|simpl; lia].
  rewrite Hs. apply errors_appended_refl.
Qed.

Lemma advanced_by_trans n m (st1 st2 st3 : State) :
  advanced_by n st1 st2 → advanced_by m st2 st3 →
  advanced_by (n + m) st1 st3.
Proof.
  intros (m1 & H1 & Hl1) (m2 & H2 & Hl2). exists (m1 ++ m2). split.
  - by eapply errors_appended_trans.
  - rewrite length_app. lia.
Qed.

Lemma advanced_by_mono n m (st st' : State) :
  n ≤ m → advanced_by n st st' → advanced_by m st st'.
Proof. intros Hnm (msgs & Hm & Hl). exists msgs. split; [done|lia]. Qed.

Lemma advanced_by_with_error (st : State) message :
  advanced_by 1 st (with_error st message).
Proof. exists [message]. split; [reflexivity|simpl; lia]. Qed.

(** The logging executor adds a record exactly when it returns [None]. *)
Lemma logging_executor_records fuel request message (st : State) res st' :
  execute_request_or_log_error fuel request message st = (res, st') →
  (res ≠ Ok None ∧ self st' = self st)
  ∨ (res = Ok None ∧ advanced_by 1 st st').
Proof.
  rewrite execute_request_or_log_error_run.
  destruct (execute_request fuel request st) as [[r|e] st1] eqn:Hrun;
    apply execute_request_inv in Hrun as (Hself & _ & Hexn).
  - intros [= <- <-]. by left.
  - destruct e as [h| | | | | |name];
      intros [= <- <-]; try (by left).
    right. split; [done|].
    replace 1 with (0 + 1) by lia.
    eapply advanced_by_trans; [by apply advanced_by_self|].
    apply advanced_by_with_error.
Qed.

Lemma process_pair_records fuel task p (st : State) res st' :
  process_pair fuel task p st = (res, st') → advanced_by 1 st st'.
Proof.
  unfold process_pair. run_monad.
  destruct (getitem task (source_sheet_index (self st))) as [src|e];
    [|intros [= <- <-]; by apply advanced_by_self..].
  destruct (getitem task (task_id_index (self st))) as [id|e];
    [|intros [= <- <-]; by apply advanced_by_self..].
  match goal with |- context [execute_request_or_log_error ?f ?q ?m st] =>
    destruct (execute_request_or_log_error f q m st) as [[[resp|]|e] st1] eqn:Hread
  end; apply logging_executor_records in Hread as [[Hres Hself]|[Hres Hadv]];
    try done; try (intros [= <- <-]; by apply advanced_by_self).
  - destruct (getitem task (destination_sheet_index (self st1))) as [dst|e];
      [|intros [= <- <-]; by apply advanced_by_self..].
    destruct (getitem task (task_id_index (self st1))) as [id'|e];
      [|intros [= <- <-]; by apply advanced_by_self..].
    match goal with |- context [execute_request_or_log_error ?f ?q ?m st1] =>
      destruct (execute_request_or_log_error f q m st1) as [[a|e] st2] eqn:Hwrite
    end; apply logging_executor_records in Hwrite as [[Hres2 Hself2]|[Hres2 Hadv2]];
      intros [= <- <-];
      first [ apply advanced_by_self; congruence
            | replace 1 with (0 + 1) by lia;
              eapply advanced_by_trans; [by apply advanced_by_self|done]
            | done ].
  - by intros [= <- <-].
Qed.

Lemma for_each_records {A} (body : A → M unit) n (l : list A) :
  (∀ x st r st', body x st = (r, st') → advanced_by n st st') →
  ∀ st r st', for_each l body st = (r, st') →
              advanced_by (length l * n) st st'.
Proof.
  intros Hbody. induction l as [|x l IH]; intros st r st'; simpl.
  - intros [= <- <-]. by apply advanced_by_self.
  - unfold bind. destruct (body x st) as [[[]|e] st1] eqn:Hx;
      apply Hbody in Hx.
    + intros Hrest. apply IH in Hrest. by eapply advanced_by_trans.
    + intros [= <- <-]. eapply advanced_by_mono; [|done]. lia.
Qed.

(** X8.  Processing one pair adds at most one Error Record, and
    processing one row adds at most one record per pair of the row, or one
    for malformation: at most [max 1 ((L - 5) / 2)] records, appended to
    those already there. *)
Theorem error_records_bounded fuel task (st : State) :
  (∀ p res st',
     process_pair fuel task p st = (res, st') → advanced_by 1 st st')
  ∧ (∀ res st',
       process_task fuel task st = (res, st') →
       advanced_by (Nat.max 1 ((length task - 5) / 2)) st st').
Proof.
  split; [intros p res st'; apply process_pair_records|].
  intros res st'.
  set (bound := Nat.max 1 ((length task - 5) / 2)).
  assert (1 ≤ bound ∧ (length task - 5) / 2 ≤ bound) as [Hb1 Hb2] by lia.
  clearbody bound. unfold process_task. run_monad.
  destruct (getitem task (enable_index (self st))) as [en|e];
    [|intros [= <- <-]; by apply advanced_by_self..].
  destruct (decide (en ≠ CStr "TRUE"));
    [intros [= <- <-]; by apply advanced_by_self|].
  destruct (decide _) as [Hodd|Heven].
  - destruct (getitem task (task_id_index (self st))) as [id|e];
      intros [= <- <-]; [|by apply advanced_by_self..].
    eapply advanced_by_mono; [|apply advanced_by_with_error]. done.
  - destruct (extractor_even_ok task) as (pairs & -> & Hlen).
    { destruct (decide ((Z.of_nat (length task) - 5) `mod` 2 = 0)%Z); done. }
    intros Hrun. apply (for_each_records _ 1) in Hrun;
      [|intros x; apply process_pair_records].
    eapply advanced_by_mono; [|exact Hrun]. lia.
Qed.


(** Inside one call of the executor only the last execution can be
    answered by a response. *)
Lemma attempt_success_is_last request evs res i r :
  attempt request evs res →
  evs !! i = Some (Executed request (Success r)) →
  res = Ok r ∧ S i = length evs.
Proof.
  intros Hatt. revert i.
  induction Hatt as [o Ho|e He|e evs res He _ IH]; intros i Hi.
  - destruct i as [|i]; [|by destruct i]. by injection Hi as ->.
  - by destruct i as [|[|i]].
  - destruct i as [|[|i]]; [done..|].
    apply IH in Hi as [-> Hlen]. simpl. by rewrite <- Hlen.
Qed.

End PairFootprint.

Lemma error_records_bounded_witness :
  advanced_by 1
    (scripted (configured []) [Failure bad_range])
    (process_pair 0 task_T1 pair_AB
       (scripted (configured []) [Failure bad_range])).2.
Proof.
  apply (proj1 (error_records_bounded (H := script) 0 task_T1
           (scripted (configured []) [Failure bad_range])) pair_AB
           (Ok tt)).
  reflexivity.
Defined.


(** ** Config Loader and Orchestrator *)

Lemma resolve_column_keeps s cv :
  tasks (resolve_column s cv) = tasks s
  ∧ errors (resolve_column s cv) = errors s
  ∧ configuration_range (resolve_column s cv) = configuration_range s
  ∧ configuration_sheet_id (resolve_column s cv) = configuration_sheet_id s.
Proof. destruct cv as [n v]. unfold resolve_column. by repeat case_decide. Qed.

Lemma resolve_header_keeps header s :
  tasks (resolve_header header s) = tasks s
  ∧ errors (resolve_header header s) = errors s
  ∧ configuration_range (resolve_header header s) = configuration_range s
  ∧ configuration_sheet_id (resolve_header header s) = configuration_sheet_id s.
Proof.
  induction header as [|x header (IH1 & IH2 & IH3 & IH4)] using rev_ind; [done|].
  rewrite resolve_header_snoc.
  destruct (resolve_column_keeps (resolve_header header s) (length header, x))
    as (-> & -> & -> & ->).
  done.
Qed.

Lemma resolve_header_absent header s c :
  label c ∉ header → index_of c (resolve_header header s) = index_of c s.
Proof.
  induction header as [|x header IH] using rev_ind; [done|].
  intros Hnotin. rewrite resolve_header_snoc, resolve_column_index.
  rewrite decide_False.
  - apply IH. intros Hin. apply Hnotin, elem_of_app. by left.
  - intros ->. apply Hnotin, elem_of_app. right. by apply list_elem_of_singleton.
Qed.

Lemma last_occurrence_end v (l : list cell) :
  last_occurrence v (l ++ [v]) (length l).
Proof.
  split; [by apply list_lookup_middle|].
  intros j Hj Hv. apply lookup_lt_Some in Hv.
  rewrite length_app in Hv. simpl in Hv. lia.
Qed.

Lemma last_occurrence_before v (l : list cell) x i :
  x ≠ v → last_occurrence v l i → last_occurrence v (l ++ [x]) i.
Proof.
  intros Hne [Hi Hlast]. split.
  - rewrite lookup_app_l; [done|]. by eapply lookup_lt_Some.
  - intros j Hj Hv. destruct (decide (j < length l)) as [Hlt|Hge].
    + rewrite lookup_app_l in Hv by done. by apply (Hlast j).
    + assert (j < length (l ++ [x])) as Hb by (by eapply lookup_lt_Some).
      rewrite length_app in Hb. simpl in Hb.
      assert (j = length l) as -> by lia.
      rewrite list_lookup_middle in Hv by done. congruence.
Qed.

Lemma resolved_index_origin header s c i :
  index_of c (resolve_header header s) = Some i →
  last_occurrence (label c) header i
  ∨ ((label c ∉ header) ∧ index_of c s = Some i).
Proof.
  revert i. induction header as [|x header IH] using rev_ind; intros i.
  - intros Hi. right. split; [|done]. by intros ?%elem_of_nil.
  - rewrite resolve_header_snoc, resolve_column_index.
    destruct (decide (x = label c)) as [->|Hne].
    + intros [= <-]. left. apply last_occurrence_end.
    + intros [Hlast|[Hnotin Hs]]%IH.
      * left. by apply last_occurrence_before.
      * right. split; [|done].
        intros [Hin|Hin%list_elem_of_singleton]%elem_of_app; [done|].
        by subst.
Qed.

Lemma label_inj c c' : label c = label c' → c = c'.
Proof. by destruct c, c'. Qed.

(** X10.  The index recorded for a label after the scan of the header
    always comes from the header when the label occurs there, and is then
    the position of its last occurrence; otherwise it is the index the
    replicator already had.  On a fresh replicator, therefore, a recorded
    index is a position of the header that holds the label, and two
    different labels never get the same index. *)
Theorem resolved_index_is_last_occurrence header s c i :
  index_of c (resolve_header header s) = Some i →
  (last_occurrence (label c) header i
   ∨ ((label c ∉ header) ∧ index_of c s = Some i))
  ∧ (∀ config_sheet_id c',
       s = init config_sheet_id →
       header !! i = Some (label c)
       ∧ i < length header
       ∧ (c' ≠ c → index_of c' (resolve_header header s) ≠ Some i)).
Proof.
  intros Hi. split; [by apply resolved_index_origin|].
  intros config_sheet_id c' ->.
  assert (header !! i = Some (label c)) as Hcell.
  { apply resolved_index_origin in Hi as [[Hcell _]|[_ Hnone]]; [done|].
    by destruct c. }
  split_and!; [done|by eapply lookup_lt_Some|].
  intros Hne Hi'.
  apply resolved_index_origin in Hi' as [[Hcell' _]|[_ Hnone]];
    [|by destruct c'].
  rewrite Hcell in Hcell'. injection Hcell' as Heq.
  by apply label_inj in Heq.
Qed.

Lemma resolved_index_is_last_occurrence_witness :
  last_occurrence (CStr "Enable") standard_header 3
  ∨ ((CStr "Enable" ∉ standard_header)
     ∧ index_of Enable (init "cfg") = Some 3).
Proof.
  apply (resolved_index_is_last_occurrence standard_header (init "cfg")
           Enable 3).
  reflexivity.
Defined.

Section Orchestrator.
Context `{Remote}.

(** The request of [fetch_config_data]. *)
Lemma fetch_config_data_run fuel (st : State) :
  fetch_config_data fuel st =
  match execute_request fuel
          (ValuesGet (CStr (configuration_sheet_id (self st)))
             (CStr (configuration_range (self st))) "ROWS" None) st with
  | (Ok response, st1) => load_config response st1
  | (Raise e, st1) => (Raise e, st1)
  end.
Proof. reflexivity. Qed.


(** X11.  When the configuration holds nothing but a header row, on a
    replicator without Error Records, [run] makes no remote call beyond the
    configuration fetch: no row is processed and nothing is written to the
    error sheet. *)
Theorem header_only_run fuel (st st1 : State) response header :
  execute_request fuel
    (ValuesGet (CStr (configuration_sheet_id (self st)))
       (CStr (configuration_range (self st))) "ROWS" None) st
  = (Ok response, st1) →
  vr_values response = Some [header] →
  errors (self st) = [] →
  run fuel st
  = (Ok tt, mkState (set_tasks (resolve_header header (self st)) [])
              (world st1) (log st1)).
Proof.
  intros Hfetch Hvalues Hnone. unfold run, bind.
  rewrite fetch_config_data_run, Hfetch, load_config_run, Hvalues.
  apply execute_request_inv in Hfetch as (Hself & _ & _). rewrite Hself.
  unfold process_tasks, bind, gets. simpl.
  rewrite handle_errors_run. simpl.
  destruct (resolve_header_keeps header (self st)) as (_ & -> & _).
  by rewrite Hnone.
Qed.

(** X12.  When the header row has no ["Enable"] label and the index was
    never set, the read of the first row's Enable cell raises [TypeError]
    whatever the row holds: [run] ends there, right after the configuration
    was loaded, without any further remote call. *)
Theorem missing_enable_label_aborts fuel (st st1 : State) response header row rows :
  execute_request fuel
    (ValuesGet (CStr (configuration_sheet_id (self st)))
       (CStr (configuration_range (self st))) "ROWS" None) st
  = (Ok response, st1) →
  vr_values response = Some (header :: row :: rows) →
  CStr "Enable" ∉ header →
  enable_index (self st) = None →
  run fuel st
  = (Raise TypeError,
     mkState (set_tasks (resolve_header header (self st)) (row :: rows))
       (world st1) (log st1)).
Proof.
  intros Hfetch Hvalues Hnotin Hnone. unfold run, bind.
  rewrite fetch_config_data_run, Hfetch, load_config_run, Hvalues.
  apply execute_request_inv in Hfetch as (Hself & _ & _). rewrite Hself.
  unfold process_tasks, bind, gets. simpl.
  unfold process_task, bind, gets, lift. simpl.
  pose proof (resolve_header_absent header (self st) Enable Hnotin) as Hidx.
  simpl in Hidx. by rewrite Hidx, Hnone.
Qed.

(** X13.  The service answers the configuration fetch, after [n]
    rate-limit signals, with an [HttpError] that is not the rate-limit
    signal.  As long as [n] does not exceed the nested retries the
    recursion limit leaves room for, [run] raises that error: the
    replicator is left as it was, and the only remote calls made are the
    executions of the configuration request.  When [n] exceeds that room,
    [run] ends in [RecursionError] instead. *)
Theorem config_fetch_failure_is_fatal fuel (st : State) n evs e w' :
  answered
    (ValuesGet (CStr (configuration_sheet_id (self st)))
       (CStr (configuration_range (self st))) "ROWS" None)
    n (world st) evs (Failure e) w' →
  (n ≤ fuel →
   run fuel st = (Raise (HttpError e), mkState (self st) w' (log st ++ evs)))
  ∧ (fuel < n → (run fuel st).1 = Raise RecursionError).
Proof.
  intros Hans. unfold run, bind. rewrite fetch_config_data_run.
  destruct st as [s w l]. simpl in *. split; intros Hfuel.
  - by rewrite (execute_request_answered _ _ _ _ _ _ Hans fuel s l Hfuel).
  - pose proof (execute_request_cut_off _ _ _ _ _ _ Hans fuel s l Hfuel) as Hcut.
    destruct (execute_request fuel _ _) as [[r|e'] st1]; simpl in *;
      [done|congruence].
Qed.


End Orchestrator.

Section Endurance.
Context `{Remote}.


(** X16.  The Error Reporter never changes the replicator: in
    particular the Error Records are still there after they were written,
    whether the write succeeded or not. *)
Theorem handle_errors_keeps_records fuel (st : State) res st' :
  handle_errors fuel st = (res, st') → self st' = self st.
Proof.
  rewrite handle_errors_run. destruct (errors (self st)) as [|row rows].
  - by intros [= _ <-].
  - unfold bind, ret.
    match goal with |- context [execute_request fuel ?q st] =>
      destruct (execute_request fuel q st) as [[a|e] st1] eqn:Hwrite
    end; apply execute_request_inv in Hwrite as (Hself & _);
      by intros [= _ <-].
Qed.

(** X17.  A whole run on a service where every request succeeds, from a
    replicator without Error Records: if the fetched configuration has a
    header and every row under it is enabled and well formed for the
    indices resolved from that header, [run] returns normally, and its
    remote calls are the configuration fetch followed by the copies of the
    rows, row after row; nothing is written to the error sheet. *)
Theorem successful_run_copies_everything fuel (st : State) response w1 header rows :
  always_succeeds →
  request_execute
    (ValuesGet (CStr (configuration_sheet_id (self st)))
       (CStr (configuration_range (self st))) "ROWS" None) (world st)
  = (Success response, w1) →
  vr_values response = Some (header :: rows) →
  errors (self st) = [] →
  Forall (well_formed (resolve_header header (self st))) rows →
  ∃ evss w',
    run fuel st
    = (Ok tt,
       mkState (set_tasks (resolve_header header (self st)) rows) w'
         (log st
          ++ Executed
               (ValuesGet (CStr (configuration_sheet_id (self st)))
                  (CStr (configuration_range (self st))) "ROWS" None)
               (Success response)
             :: concat evss))
    ∧ Forall2 (task_trace (resolve_header header (self st))) rows evss.
Proof.
  intros Hok Hfetch Hvalues Hnone Hwf.
  set (s1 := set_tasks (resolve_header header (self st)) rows).
  set (request := ValuesGet _ _ _ _) in *.
  set (st1 := mkState s1 w1 (log st ++ [Executed request (Success response)])).
  destruct (copy_tasks fuel rows Hok st1) as (evss & w' & Hrun & Htraces);
    [done|].
  exists evss, w'. split; [|done].
  unfold run, bind. rewrite fetch_config_data_run. fold request.
  rewrite execute_request_unfold, Hfetch. simpl.
  rewrite load_config_run, Hvalues. simpl. fold s1. fold st1.
  unfold process_tasks, bind, gets. simpl. rewrite Hrun.
  rewrite handle_errors_run. simpl.
  destruct (resolve_header_keeps header (self st)) as (_ & -> & _).
  rewrite Hnone. by rewrite <- app_assoc.
Qed.

End Endurance.

Lemma header_only_run_witness :
  run 0 (scripted (init "cfg") [Success (config_values [])])
  = (Ok tt,
     @mkState script (configured []) []
       [Executed config_request (Success (config_values []))]).
Proof.
  apply (header_only_run (H := script) 0
    (scripted (init "cfg") [Success (config_values [])])
    (@mkState script (init "cfg") []
       [Executed config_request (Success (config_values []))])
    (config_values []) standard_header); reflexivity.
Defined.

Lemma missing_enable_label_aborts_witness :
  (run 0 (scripted (init "cfg")
            [Success
               {| vr_range := None; vr_majorDimension := None;
                  vr_values := Some [header_without_enable; task_T1] |}])).1
  = Raise TypeError.
Proof.
  rewrite (missing_enable_label_aborts (H := script) 0
    (scripted (init "cfg")
       [Success
          {| vr_range := None; vr_majorDimension := None;
             vr_values := Some [header_without_enable; task_T1] |}])
    _ _ header_without_enable task_T1 [] eq_refl eq_refl);
    [reflexivity| |reflexivity].
  intros Hin. repeat (apply elem_of_cons in Hin as [Hin|Hin]; [discriminate|]).
  by apply elem_of_nil in Hin.
Defined.

Lemma config_fetch_failure_is_fatal_witness :
  run 3 (scripted (init "cfg") [Failure quota_exceeded; Failure bad_range])
  = (Raise (HttpError bad_range),
     @mkState script (init "cfg") []
       [Executed config_request (Failure quota_exceeded); Slept 100;
        Executed config_request (Failure bad_range)])
  ∧ (run 0 (scripted (init "cfg")
              [Failure quota_exceeded; Failure bad_range])).1
    = Raise RecursionError.
Proof.
  assert (answered (H := script) config_request 1
            [Failure quota_exceeded; Failure bad_range]
            [Executed config_request (Failure quota_exceeded); Slept 100;
             Executed config_request (Failure bad_range)]
            (Failure bad_range) []) as Hans.
  { eapply (answered_later (H := script)); [reflexivity..|].
    eapply (answered_now (H := script)); reflexivity. }
  split.
  - apply (proj1 (config_fetch_failure_is_fatal (H := script) 3
      (scripted (init "cfg") [Failure quota_exceeded; Failure bad_range]) 1
      _ bad_range [] Hans)). lia.
  - apply (proj2 (config_fetch_failure_is_fatal (H := script) 0
      (scripted (init "cfg") [Failure quota_exceeded; Failure bad_range]) 1
      _ bad_range [] Hans)). lia.
Defined.



Lemma handle_errors_keeps_records_witness :
  errors (self (handle_errors 0
                  (scripted
                     (set_errors (configured []) (error_rows ["one"; "two"]))
                     [Failure bad_range])).2)
  = error_rows ["one"; "two"].
Proof.
  rewrite (handle_errors_keeps_records (H := script) 0
    (scripted (set_errors (configured []) (error_rows ["one"; "two"]))
       [Failure bad_range])
    (handle_errors 0
       (scripted (set_errors (configured []) (error_rows ["one"; "two"]))
          [Failure bad_range])).1
    (handle_errors 0
       (scripted (set_errors (configured []) (error_rows ["one"; "two"]))
          [Failure bad_range])).2
    (surjective_pairing _)).
  reflexivity.
Defined.

Lemma successful_run_copies_everything_witness :
  ∃ evss w',
    run 0 (@mkState (obliging (config_values [task_T1; task_T2]))
             (init "cfg") tt [])
    = (Ok tt,
       @mkState (obliging (config_values [task_T1; task_T2]))
         (configured [task_T1; task_T2]) w'
         (Executed config_request
            (Success (config_values [task_T1; task_T2]))
          :: concat evss))
    ∧ Forall2 (task_trace (configured [])) [task_T1; task_T2] evss.
Proof.
  apply (successful_run_copies_everything
    (H := obliging (config_values [task_T1; task_T2])) 0
    (@mkState (obliging (config_values [task_T1; task_T2])) (init "cfg") tt [])
    (config_values [task_T1; task_T2]) tt standard_header
    [task_T1; task_T2]).
  - intros request w. destruct request as [? ? ? [?|]|? ? ? ?];
      eexists _, _; reflexivity.
  - reflexivity.
  - reflexivity.
  - reflexivity.
  - apply List.Forall_cons; [|apply List.Forall_cons; [|apply List.Forall_nil]];
      (split_and!; [reflexivity | simpl; lia | reflexivity | by eexists..]).
Defined.
